(** * Verification of the audiobook chunker and the source concatenator

    Two scripts are embedded here:

    - [files/audiobook-processor.py]  (module [Audiobook])
    - [files/gather_source_code.py]   (module [Gather])

    Numbers.  Python [int] values are [Z].  A finite Python [float] is
    modelled by the rational number it denotes ([Q], compared with [==]).
    Durations are computed exactly.  The divisions of lines 90-102, by and
    of the speed factor, round to the nearest binary64 value, ties to even,
    and overflow to an infinity (module [Float64]); [%] is C's exact [fmod]
    with Python's change of sign, comparisons and [math.floor] are exact on
    binary64 values.  The zero has no sign.

    Lists.  [[x] * n] raises for a count that a 64-bit CPython cannot
    index or request; a list that it can request is taken to fit the
    memory of the machine.

    Effects.  [print], [subprocess.run] and the file writes are recorded as
    a trace of events; what the outside world answers (the output of the
    probe, the exit status of a transform, the state of a file) is a
    parameter of the run. *)

From Stdlib Require Import ZArith QArith Qround List String Ascii Bool Lia Lqa.
From Stdlib Require Import Qpower Permutation.
From Stdlib Require Decimal DecimalString DecimalN.
Import ListNotations.

(** ** Python primitives *)

Module Py.

Local Open Scope Q_scope.

(** [x % m] on floats, for a positive modulus: the result lies in [0, m). *)
Definition mod_ (x m : Q) : Q := x - m * inject_Z (Qfloor (x / m)).

(** [min(a, b)]: the first argument unless the second is strictly smaller. *)
Definition min (a b : Q) : Q := if Qle_bool a b then a else b.

(** [math.ceil] and [math.floor]. *)
Definition ceil (x : Q) : Z := Qceiling x.
Definition floor (x : Q) : Z := Qfloor x.

(** [range(a, b)]. *)
Definition range (a b : Z) : list Z :=
  map (fun k => (a + Z.of_nat k)%Z) (seq 0 (Z.to_nat (b - a))).

(** [[x] * n]: a non-positive count gives the empty list. *)
Definition times {A} (x : A) (n : Z) : list A := repeat x (Z.to_nat n).

(** The product of a list of numbers. *)
Definition product (l : list Q) : Q := fold_right Qmult 1 l.

(** ASCII and Latin-1 white space, as [str.rstrip()] removes it. *)
Definition is_space (c : ascii) : bool :=
  let n := nat_of_ascii c in
  ((9 <=? n) && (n <=? 13) || (28 <=? n) && (n <=? 32)
   || (n =? 133) || (n =? 160))%nat.

(** [s.rstrip()]. *)
Fixpoint rstrip (s : string) : string :=
  match s with
  | EmptyString => EmptyString
  | String c r =>
      match rstrip r with
      | EmptyString => if is_space c then EmptyString else String c EmptyString
      | r' => String c r'
      end
  end.

End Py.

(** ** Binary64 arithmetic *)

Module Float64.

Local Open Scope Q_scope.

(** The value of a float expression. *)
Inductive value :=
| Finite (q : Q)
| Infinity (negative : bool)
| NaN.

Definition pow2 (e : Z) : Q := 2 ^ e.

(** The exponent [e] with [2^e <= q < 2^(e+1)], for a positive [q]. *)
Definition ilog2 (q : Q) : Z :=
  let e0 := (Z.log2 (Qnum q) - Z.log2 (Zpos (Qden q)))%Z in
  if Qle_bool (pow2 e0) q then e0 else (e0 - 1)%Z.

(** The exponent of the unit in the last place: 53 significant bits, and
    the subnormal numbers are multiples of [2^-1074]. *)
Definition ulp_exp (q : Q) : Z := Z.max (ilog2 q - 52) (-1074).

(** The nearest integer, the even one of two at the same distance. *)
Definition rne (x : Q) : Z :=
  let f := Qfloor x in
  let r := x - inject_Z f in
  if Qle_bool r (1 # 2) then
    if Qle_bool (1 # 2) r then (if Z.even f then f else (f + 1)%Z) else f
  else (f + 1)%Z.

(** The nearest multiple of the unit in the last place. *)
Definition nearest (q : Q) : Q :=
  inject_Z (rne (q / pow2 (ulp_exp q))) * pow2 (ulp_exp q).

Definition round_pos (q : Q) : value :=
  if Qle_bool (pow2 1024) (nearest q) then Infinity false
  else Finite (nearest q).

Definition negate (v : value) : value :=
  match v with
  | Finite q => Finite (- q)
  | Infinity n => Infinity (negb n)
  | NaN => NaN
  end.

(** The binary64 value nearest to a rational number. *)
Definition round (q : Q) : value :=
  if Qeq_bool q 0 then Finite 0
  else if Qle_bool 0 q then round_pos q
  else negate (round_pos (- q)).

(** [x / y] for a divisor that is not zero. *)
Definition div (x y : Q) : value := round (x / y).

(** [a % m] for a positive modulus.  C's [fmod] is exact and has the sign
    of [a]; to a remainder that is not zero and of the other sign than [m],
    [m] is added, and the sum rounds.  The remainder of an infinity or of
    NaN is NaN. *)
Definition rem (a : value) (m : Q) : value :=
  match a with
  | Finite x =>
      if Qle_bool 0 x then Finite (Py.mod_ x m) else round (Py.mod_ x m)
  | _ => NaN
  end.

(** [a <= y]: false on NaN. *)
Definition le (a : value) (y : Q) : bool :=
  match a with
  | Finite x => Qle_bool x y
  | Infinity n => n
  | NaN => false
  end.

(** The rational is a binary64 value. *)
Definition is_float (q : Q) : bool :=
  match round q with
  | Finite v => Qeq_bool v q
  | _ => false
  end.

End Float64.

(** ** files/audiobook-processor.py *)

Module Audiobook.

Local Open Scope Q_scope.

(** *** The chunk plan (lines 61-73 of [process_audiobook]) *)

Record chunk := mk_chunk {
  index : Z;          (* [i + 1], the number in the output file name *)
  start_time : Z;     (* [i * chunk_seconds] *)
  duration : Q        (* [min(chunk_seconds, total_duration - start_time)] *)
}.

Definition chunk_seconds (chunk_duration : Z) : Z := (chunk_duration * 60)%Z.

(** [total_chunks], after the clamp of line 65. *)
Definition total_chunks (total_duration : Q) (chunk_duration start_chunk : Z)
    (max_chunks : option Z) : Z :=
  let n := Py.ceil (total_duration / inject_Z (chunk_seconds chunk_duration)) in
  match max_chunks with
  | None => n
  | Some m => Z.min n (start_chunk + m - 1)
  end.

(** What one iteration of the loop computes for index [i] (lines 72-73). *)
Definition plan_chunk (total_duration : Q) (chunk_duration : Z) (i : Z) : chunk :=
  let start_time := (i * chunk_seconds chunk_duration)%Z in
  {| index := (i + 1)%Z;
     start_time := start_time;
     duration := Py.min (inject_Z (chunk_seconds chunk_duration))
                        (total_duration - inject_Z start_time) |}.

(** The records the loop of line 71 goes through, in order. *)
Definition chunk_plan (total_duration : Q) (chunk_duration start_chunk : Z)
    (max_chunks : option Z) : list chunk :=
  map (plan_chunk total_duration chunk_duration)
      (Py.range (start_chunk - 1)
                (total_chunks total_duration chunk_duration start_chunk max_chunks)).


(** *** The speed filter (lines 89-106) *)

Definition Qltb (x y : Q) : bool := negb (Qle_bool y x).

Inductive exn := ValueError | ZeroDivisionError | OverflowError | MemoryError.

(** The guard of line 90:
    [(speed_factor <= 0.0) or ((1 / speed_factor % 2) <= 0.0)].  The
    division is evaluated for a positive factor only. *)
Definition speed_invalid (speed_factor : Q) : bool :=
  Qle_bool speed_factor 0
  || Float64.le (Float64.rem (Float64.div 1 speed_factor) 2) 0.

(** [x / y]: a zero divisor raises. *)
Definition py_div (x y : Q) : exn + Float64.value :=
  if Qeq_bool y 0 then inl ZeroDivisionError else inr (Float64.div x y).

(** [math.floor(v)]: an infinity and NaN raise. *)
Definition py_floor (v : Float64.value) : exn + Z :=
  match v with
  | Float64.Finite q => inr (Py.floor q)
  | Float64.Infinity _ => inl OverflowError
  | Float64.NaN => inl ValueError
  end.

(** [x / b] for a divisor that is the value of an expression: a zero
    divisor raises, the quotient by an infinity is zero and the quotient by
    NaN is NaN. *)
Definition py_div_by (x : Q) (b : Float64.value) : exn + Float64.value :=
  match b with
  | Float64.Finite q => py_div x q
  | Float64.Infinity _ => inr (Float64.Finite 0)
  | Float64.NaN => inr Float64.NaN
  end.

(** The largest index of a 64-bit CPython, [sys.maxsize]. *)
Definition ssize_max : Z := 2 ^ 63 - 1.

(** [[x] * n] on a 64-bit CPython.  A count that is not an index raises
    [OverflowError]; a list of more pointers than one block can hold raises
    [MemoryError].  A shorter list is taken to fit the memory of the
    machine. *)
Definition py_repeat {A} (x : A) (n : Z) : exn + list A :=
  if ((n <? - ssize_max - 1) || (ssize_max <? n))%Z then inl OverflowError
  else if (ssize_max / 8 <? n)%Z then inl MemoryError
  else inr (Py.times x n).

(** Lines 97-104: the stages of [tempo_chain], one per [atempo=], in the
    order in which they are joined, or the exception that building them
    raises.  The operands are evaluated from left to right: the list is
    repeated before the last stage is computed. *)
Definition compile_chain (speed_factor : Q) : exn + list Float64.value :=
  if Qltb 2 speed_factor then
    match py_div speed_factor 2 with
    | inl e => inl e
    | inr half =>
        match py_floor half with
        | inl e => inl e
        | inr k =>
            match py_repeat (Float64.Finite 2) k with
            | inl e => inl e
            | inr stages =>
                inr (stages ++ [Float64.rem (Float64.Finite speed_factor) 2])
            end
        end
    end
  else if Qltb speed_factor (1 # 2) then
    match py_div 2 speed_factor with
    | inl e => inl e
    | inr twice =>
        match py_floor twice with
        | inl e => inl e
        | inr k =>
            match py_repeat (Float64.Finite (1 # 2)) k with
            | inl e => inl e
            | inr stages =>
                match py_div 1 speed_factor with
                | inl e => inl e
                | inr inverse =>
                    match py_div_by 1 (Float64.rem inverse 2) with
                    | inl e => inl e
                    | inr last => inr (stages ++ [last])
                    end
                end
            end
        end
    end
  else inr [Float64.Finite speed_factor].

(** The multiplier of a stage.  Every stage of a chain that is built is
    finite (lemma [stages_are_finite]). *)
Definition multiplier (stage : Float64.value) : Q :=
  match stage with
  | Float64.Finite q => q
  | _ => 0
  end.

(** The multipliers of the chain, when building it raises nothing. *)
Definition tempo_chain (speed_factor : Q) : list Q :=
  match compile_chain speed_factor with
  | inr chain => map multiplier chain
  | inl _ => []
  end.

(** The exception raised by lines 94-104, if any. *)
Definition chain_exception (speed_factor : Q) : option exn :=
  if negb (Qeq_bool speed_factor 1) then
    match compile_chain speed_factor with
    | inl e => Some e
    | inr _ => None
    end
  else None.

(** The argument of [-filter:a]; [None] when line 94 adds no filter. *)
Definition filter_chain (speed_factor : Q) : option (list Q) :=
  if negb (Qeq_bool speed_factor 1) then Some (tempo_chain speed_factor)
  else None.

(** Every stage is a multiplier the [atempo] filter accepts. *)
Definition stage_ok (m : Q) : Prop := (1 # 2) <= m <= 2.

(** *** Commands, messages and traces *)

(** The output of the probe ([subprocess.run(..., capture_output=True)]). *)
Record completed := mk_completed { stdout : string; stderr : string }.

(** The argument vector of one transform, field by field.  The output file
    is [os.path.join(out_dir, f"{Path(input).stem}_{out_number:03}.mp3")]. *)
Record ffmpeg_cmd := mk_cmd {
  ss : Z;                        (* -ss *)
  input : string;                (* -i *)
  t : Q;                         (* -t *)
  filter_a : option (list Q);    (* -filter:a *)
  bitrate : string;              (* -b:a {audio_quality}k *)
  ar : string;                   (* -ar *)
  out_dir : string;
  out_number : Z
}.

Inductive message :=
| Probe_duration (text : string)            (* Total duration: .. seconds *)
| Probe_error (text : string)               (* Error: .. *)
| Cannot_determine (input_file : string)
| Total_minutes (minutes : Q)
| Processing_chunks (first last : Z)
| Speed_too_small
| Processing_chunk (number total : Z)
| Command (cmd : ffmpeg_cmd)
| Chunk_error (number : Z).                 (* Error processing chunk .. *)

Inductive event :=
| Mkdir (dir : string)
| Run_ffprobe (input_file : string)
| Print (m : message)
| Run_ffmpeg (cmd : ffmpeg_cmd).

(** A computation prints and runs processes, then returns or raises. *)
Definition run (A : Type) : Type := (list event * (exn + A))%type.

Definition ret {A} (a : A) : run A := ([], inr a).
Definition raise {A} (e : exn) : run A := ([], inl e).
Definition emit (e : event) : run unit := ([e], inr tt).
Definition bind {A B} (c : run A) (k : A -> run B) : run B :=
  match snd c with
  | inl e => (fst c, inl e)
  | inr a => (fst c ++ fst (k a), snd (k a))
  end.

Notation "x <- c ;; k" := (bind c (fun x => k))
  (at level 100, c at next level, right associativity).
Notation "c ;;; k" := (bind c (fun _ => k))
  (at level 100, right associativity).

Definition trace {A} (c : run A) : list event := fst c.
Definition raises {A} (c : run A) (e : exn) : Prop := snd c = inl e.

(** The transforms of a trace, in order. *)
Fixpoint transforms (tr : list event) : list ffmpeg_cmd :=
  match tr with
  | [] => []
  | Run_ffmpeg c :: r => c :: transforms r
  | _ :: r => transforms r
  end.

(** The messages of a trace, in order. *)
Fixpoint printed (tr : list event) : list message :=
  match tr with
  | [] => []
  | Print m :: r => m :: printed r
  | _ :: r => printed r
  end.

Definition is_chunk_error (m : message) : bool :=
  match m with Chunk_error _ => true | _ => false end.

(** The per-chunk error messages of a trace. *)
Definition chunk_errors (tr : list event) : list message :=
  filter is_chunk_error (printed tr).

Section World.

(** [float(s)]: [None] stands for [ValueError]. *)
Variable float : string -> option Q.
(** What the probe prints for an input file. *)
Variable ffprobe : string -> completed.
(** The exit status of a transform. *)
Variable ffmpeg : ffmpeg_cmd -> Z.

(** [get_duration] (lines 9-25). *)
Definition get_duration (input_file : string) : run Q :=
  emit (Run_ffprobe input_file) ;;;
  let result := ffprobe input_file in
  if negb (String.eqb (Py.rstrip (stdout result)) "") then
    emit (Print (Probe_duration (Py.rstrip (stdout result)))) ;;;
    match float (Py.rstrip (stdout result)) with
    | Some d => ret d
    | None => raise ValueError
    end
  else
    (if negb (String.eqb (stderr result) "")
     then emit (Print (Probe_error (stderr result)))
     else ret tt) ;;;
    ret 0.

Section Loop.

Variables (input_file output_dir : string) (chunk_duration : Z)
          (speed_factor : Q) (audio_quality sample_rate : string)
          (total_duration : Q) (last : Z).

(** The command of lines 81-115 for one planned chunk. *)
Definition build_cmd (c : chunk) : ffmpeg_cmd :=
  {| ss := start_time c;
     input := input_file;
     t := duration c;
     filter_a := filter_chain speed_factor;
     bitrate := audio_quality;
     ar := sample_rate;
     out_dir := output_dir;
     out_number := index c |}.

(** The loop of lines 71-124 over the remaining indices.  The [return]
    of line 92 leaves the function, so nothing follows it. *)
Fixpoint chunk_loop (indices : list Z) : run unit :=
  match indices with
  | [] => ret tt
  | i :: rest =>
      let c := plan_chunk total_duration chunk_duration i in
      if speed_invalid speed_factor then emit (Print Speed_too_small)
      else
        match chain_exception speed_factor with
        | Some e => raise e
        | None =>
            let cmd := build_cmd c in
            emit (Print (Processing_chunk (i + 1) last)) ;;;
            emit (Print (Command cmd)) ;;;
            emit (Run_ffmpeg cmd) ;;;
            (if (ffmpeg cmd =? 0)%Z then ret tt
             else emit (Print (Chunk_error (i + 1)))) ;;;
            chunk_loop rest
        end
  end.

End Loop.

(** [process_audiobook] (lines 28-124). *)
Definition process_audiobook (input_file output_dir : string)
    (chunk_duration : Z) (speed_factor : Q) (start_chunk : Z)
    (max_chunks : option Z) (audio_quality sample_rate : string) : run unit :=
  emit (Mkdir output_dir) ;;;
  total_duration <- get_duration input_file ;;
  if Qeq_bool total_duration 0 then
    emit (Print (Cannot_determine input_file))
  else if (chunk_seconds chunk_duration =? 0)%Z then raise ZeroDivisionError
  else
    let last :=
      total_chunks total_duration chunk_duration start_chunk max_chunks in
    emit (Print (Total_minutes (total_duration / 60))) ;;;
    emit (Print (Processing_chunks start_chunk last)) ;;;
    chunk_loop input_file output_dir chunk_duration speed_factor
      audio_quality sample_rate total_duration last
      (Py.range (start_chunk - 1) last).

End World.

(** *** A reader of plain decimal numerals

    The probe prints a duration as an optionally signed decimal numeral with
    an optional fraction, which [float] accepts.  [decimal_float] reads
    exactly these and serves to run the model on concrete probe outputs. *)

Definition digit (c : ascii) : option Z :=
  let n := nat_of_ascii c in
  if ((48 <=? n) && (n <=? 57))%nat then Some (Z.of_nat (n - 48)) else None.

Fixpoint decimal_digits (s : string) (num : Z) (den : positive)
    (seen_dot seen_digit : bool) : option Q :=
  match s with
  | EmptyString => if seen_digit then Some (num # den) else None
  | String c r =>
      match digit c with
      | Some d =>
          decimal_digits r (num * 10 + d)%Z
            (if seen_dot then (den * 10)%positive else den) seen_dot true
      | None =>
          if (Ascii.eqb c "." && negb seen_dot)%bool
          then decimal_digits r num den true seen_digit
          else None
      end
  end.

Definition decimal_float (s : string) : option Q :=
  match s with
  | String "-" r => option_map Qopp (decimal_digits r 0 1 false false)
  | String "+" r => decimal_digits r 0 1 false false
  | _ => decimal_digits s 0 1 false false
  end.

(** A probe that prints one line on its standard output and nothing on its
    diagnostic stream, and a transform that always succeeds. *)
Definition probe_prints (line : string) (input_file : string) : completed :=
  {| stdout := line ++ String (ascii_of_nat 10) ""; stderr := "" |}.

Definition ffmpeg_succeeds (cmd : ffmpeg_cmd) : Z := 0%Z.

End Audiobook.

(** ** files/gather_source_code.py *)

Module Gather.

Local Open Scope string_scope.

(** *** Strings and paths

    A [str] is a [string] of characters; paths are POSIX paths. *)

Definition nl : string := String (ascii_of_nat 10) "".

(** [s.split(sep)] for a one-character separator. *)
Fixpoint split (sep : ascii) (s : string) : list string :=
  match s with
  | "" => [""]
  | String c r =>
      if Ascii.eqb c sep then "" :: split sep r
      else match split sep r with
           | [] => [String c ""]
           | w :: ws => String c w :: ws
           end
  end.

(** [s.rfind(c)], [None] for -1. *)
Fixpoint rfind (c : ascii) (s : string) : option nat :=
  match s with
  | "" => None
  | String d r =>
      match rfind c r with
      | Some i => Some (S i)
      | None => if Ascii.eqb d c then Some 0%nat else None
      end
  end.

(** [s[i:]]. *)
Fixpoint drop (i : nat) (s : string) : string :=
  match i, s with
  | O, _ => s
  | S j, "" => ""
  | S j, String _ r => drop j r
  end.

(** [s.endswith(suffix)]. *)
Definition endswith (s suffix : string) : bool :=
  (String.length suffix <=? String.length s)%nat
  && String.eqb (drop (String.length s - String.length suffix) s) suffix.

(** [s.startswith(p)]. *)
Definition startswith (s p : string) : bool := String.prefix p s.

Definition lower_char (c : ascii) : ascii :=
  let n := nat_of_ascii c in
  if ((65 <=? n) && (n <=? 90))%nat then ascii_of_nat (n + 32) else c.

(** [s.lower()], on ASCII letters. *)
Fixpoint lower (s : string) : string :=
  match s with
  | "" => ""
  | String c r => String (lower_char c) (lower r)
  end.

(** [pathlib.Path(p).name]: the last component that is neither empty nor
    a single dot; empty when there is none. *)
Definition name (filepath : string) : string :=
  last (filter (fun x => negb (String.eqb x "" || String.eqb x "."))
               (split "/" filepath)) "".

(** [pathlib.Path(p).suffix]: the name from its last dot on, when that dot
    is neither its first nor its last character (the rule of CPython
    3.11; a name that starts with its only dot has no suffix in any
    version). *)
Definition suffix (filepath : string) : string :=
  let n := name filepath in
  match rfind "." n with
  | Some i =>
      if ((0 <? i) && (i <? String.length n - 1))%nat then drop i n else ""
  | None => ""
  end.

(** *** The classifier (lines 6-17) *)

Section Classifier.

(** [mimetypes.guess_type(path)[0]], a function of the path alone. *)
Variable guess_type : string -> option string.

Definition mem (x : string) (l : list string) : bool :=
  existsb (String.eqb x) l.

Definition is_text_file (filepath : string) (text_extensions : list string)
    : bool :=
  let ext := lower (suffix filepath) in
  if mem ext text_extensions then true
  else match guess_type filepath with
       | Some mime_type => startswith mime_type "text/"
       | None => false
       end.

(** [os.path.join(root, file)] for a file name without a slash. *)
Definition join (root file : string) : string :=
  if String.eqb root "" || endswith root "/" then root ++ file
  else root ++ "/" ++ file.

Fixpoint insert_sorted (x : string) (l : list string) : list string :=
  match l with
  | [] => [x]
  | y :: r => if String.leb x y then x :: l else y :: insert_sorted x r
  end.

(** [sorted(l)] on strings. *)
Definition sorted (l : list string) : list string :=
  fold_right insert_sorted [] l.

(** Neighbours of a list are in ascending order. *)
Definition in_order (l : list string) : Prop :=
  forall i a b, nth_error l i = Some a -> nth_error l (S i) = Some b ->
    String.leb a b = true.

(** [collect_files] (lines 19-31).  [walk] is what [os.walk(directory)]
    yields: each directory with the names of its files. *)
Definition collect_files (walk : list (string * list string))
    (text_extensions : list string) : list string :=
  sorted
    (filter (fun filepath => is_text_file filepath text_extensions)
       (flat_map (fun d => map (join (fst d)) (snd d)) walk)).

End Classifier.

(** The allow-list of [main] (lines 57-62). *)
Definition text_extensions : list string :=
  [".h"; ".cpp"; ".cs"; ".py"; ".json"; ".xml"; ".txt"; ".md";
   ".ini"; ".config"; ".yaml"; ".yml"; ".uplugin"; ".build";
   ".html"; ".css"; ".js"; ".java"; ".swift"; ".m"; ".mm";
   ".sh"; ".bat"; ".cmd"; ".ps1"; ".gradle"; ".properties"].

(** *** A model of the content-type guess

    [mimetypes.guess_type] looks the extension found by
    [posixpath.splitext] up in a table.  The table below is an excerpt of
    its built-in one; URL schemes and the encoding suffixes are left out. *)

(** The extension of [posixpath.splitext]: from the last dot of the part
    after the last slash, unless only dots come before it. *)
Definition splitext_ext (p : string) : string :=
  let base := last (split "/" p) "" in
  match rfind "." base with
  | Some i =>
      if forallb (Ascii.eqb ".") (list_ascii_of_string (substring 0 i base))
      then "" else drop i base
  | None => ""
  end.

Definition types_map : list (string * string) :=
  [(".txt", "text/plain"); (".py", "text/x-python"); (".md", "text/markdown");
   (".html", "text/html"); (".css", "text/css"); (".csv", "text/csv");
   (".json", "application/json"); (".js", "text/javascript");
   (".png", "image/png"); (".jpg", "image/jpeg"); (".pdf", "application/pdf");
   (".zip", "application/zip"); (".mp3", "audio/mpeg")].

Fixpoint lookup (k : string) (m : list (string * string)) : option string :=
  match m with
  | [] => None
  | (k', v) :: r => if String.eqb k k' then Some v else lookup k r
  end.

Definition mimetypes_guess_type (url : string) : option string :=
  lookup (lower (splitext_ext url)) types_map.

(** *** The aggregator (lines 33-53) *)

(** What opening and reading a path as UTF-8 text does. *)
Inductive file_state :=
| Open_error (e : string)        (* [open] raises, e.g. a missing file *)
| Undecodable                    (* [infile.read()] raises UnicodeDecodeError *)
| Read_error (e : string)        (* [infile.read()] raises something else *)
| Content (text : string).       (* [infile.read()] returns [text] *)

Inductive message :=
| Warning_skipping (filepath : string)   (* Warning: Could not read .. *)
| Error_processing (filepath e : string)
| Scanning (directory : string)
| Found (n : nat)
| Created (output_file : string).

Definition header (filepath : string) : string :=
  "// Filepath: " ++ filepath ++ nl ++ nl ++ nl.
Definition fence_open : string := "```" ++ nl.
Definition footer : string := nl ++ "```" ++ nl ++ nl ++ nl.

(** The block of a file that was read. *)
Definition block (filepath text : string) : string :=
  header filepath ++ fence_open ++ text ++ footer.

Section Files.

Variable fs : string -> file_state.

(** One iteration of the loop of line 38: what it writes to [outfile]
    and what it prints. *)
Definition combine_one (filepath : string) : string * list message :=
  match fs filepath with
  | Open_error e => ("", [Error_processing filepath e])
  | Undecodable =>
      (header filepath ++ fence_open, [Warning_skipping filepath])
  | Read_error e =>
      (header filepath ++ fence_open, [Error_processing filepath e])
  | Content text =>
      (header filepath ++ fence_open ++ text ++ footer, [])
  end.

(** [create_combined_file]: the text of the output file and the log. *)
Fixpoint create_combined_file (files : list string) : string * list message :=
  match files with
  | [] => ("", [])
  | filepath :: rest =>
      let one := combine_one filepath in
      let more := create_combined_file rest in
      (fst one ++ fst more, (snd one ++ snd more)%list)
  end.

(** The files that were opened and read without an exception. *)
Definition read_ok (filepath : string) : option string :=
  match fs filepath with Content text => Some text | _ => None end.

(** What the claim expects in the output: one block per file that was
    read, in the order of the list. *)
Fixpoint expected_output (files : list string) : string :=
  match files with
  | [] => ""
  | filepath :: rest =>
      match read_ok filepath with
      | Some text => block filepath text ++ expected_output rest
      | None => expected_output rest
      end
  end.

Definition decodable (filepath : string) : Prop :=
  fs filepath <> Undecodable /\ forall e, fs filepath <> Read_error e.

End Files.

End Gather.

(** ** Output files of the chunker (lines 75-78) *)

Module Naming.

Import Gather.
Local Open Scope string_scope.

(** [pathlib.Path(p).stem]: the name without its suffix. *)
Definition stem (filepath : string) : string :=
  let n := name filepath in
  match rfind "." n with
  | Some i =>
      if ((0 <? i) && (i <? String.length n - 1))%nat then substring 0 i n
      else n
  | None => n
  end.

(** The decimal digits of a natural number. *)
Definition decimal (n : N) : string :=
  DecimalString.NilEmpty.string_of_uint (N.to_uint n).

Fixpoint zeros (k : nat) : string :=
  match k with
  | O => ""
  | S j => String "0" (zeros j)
  end.

(** Zero padding on the left up to [width] characters. *)
Definition zero_pad (width : nat) (s : string) : string :=
  zeros (width - String.length s) ++ s.

(** [f"{n:03}"]: the sign, when there is one, counts in the width. *)
Definition format_03 (n : Z) : string :=
  if (n <? 0)%Z then String "-" (zero_pad 2 (decimal (Z.to_N (- n))))
  else zero_pad 3 (decimal (Z.to_N n)).

(** [os.path.join(a, b)]. *)
Definition path_join (a b : string) : string :=
  if startswith b "/" then b
  else if String.eqb a "" || endswith a "/" then a ++ b
  else a ++ "/" ++ b.

(** [output_file] of lines 75-78 for the chunk numbered [number]. *)
Definition output_file (output_dir input_file : string) (number : Z) : string :=
  path_join output_dir
    (stem input_file ++ "_" ++ format_03 number ++ ".mp3").

(** The output file of a command. *)
Definition cmd_output_file (cmd : Audiobook.ffmpeg_cmd) : string :=
  output_file (Audiobook.out_dir cmd) (Audiobook.input cmd)
    (Audiobook.out_number cmd).

(** The number a string of decimal digits denotes. *)
Definition digits_value (s : string) : option N :=
  option_map N.of_uint (DecimalString.NilEmpty.uint_of_string s).

End Naming.

(** ** [main] of the source concatenator (lines 55-76) *)

Module GatherMain.

Import Gather.
Local Open Scope string_scope.

Definition output_file : string := "combined_source_code.txt".

(** [sys.argv[1] if len(sys.argv) > 1 else '.']. *)
Definition directory (argv : list string) : string :=
  match argv with
  | _ :: d :: _ => d
  | _ => "."
  end.

(** [main]: [walk] gives what [os.walk] yields for a directory.  The
    result is the text of the output file and what is printed. *)
Definition main (guess_type : string -> option string)
    (walk : string -> list (string * list string))
    (fs : string -> file_state) (argv : list string)
    : string * list message :=
  let files := collect_files guess_type (walk (directory argv)) text_extensions in
  let combined := create_combined_file fs files in
  (fst combined,
   ([Scanning (directory argv); Found (List.length files)]
      ++ snd combined ++ [Created output_file])%list).

(** The files of a list that [create_combined_file] reads to the end. *)
Definition is_read (fs : string -> file_state) (filepath : string) : bool :=
  match fs filepath with Content _ => true | _ => false end.

(** The line printed for a file that is not read. *)
Definition failure_line (fs : string -> file_state) (filepath : string)
    : list message :=
  match fs filepath with
  | Open_error e | Read_error e => [Error_processing filepath e]
  | Undecodable => [Warning_skipping filepath]
  | Content _ => []
  end.

End GatherMain.

(** ** White space *)

Module Text.

(** Every character is white space. *)
Fixpoint all_space (s : string) : bool :=
  match s with
  | EmptyString => true
  | String c r => Py.is_space c && all_space r
  end.

End Text.

(** * Properties *)

(** ** Python primitives *)

Module PyFacts.

Import Py.
Local Open Scope Q_scope.

Lemma range_length (a b : Z) : List.length (range a b) = Z.to_nat (b - a).
Proof. unfold range. now rewrite length_map, length_seq. Qed.


Lemma range_In (a b i : Z) : In i (range a b) <-> (a <= i < b)%Z.
Proof.
  unfold range. rewrite in_map_iff. split.
  - intros (k & <- & Hk). apply in_seq in Hk. lia.
  - intros H. exists (Z.to_nat (i - a)). split; [lia |].
    apply in_seq. lia.
Qed.

Lemma range_empty (a b : Z) : (b <= a)%Z -> range a b = [].
Proof.
  intros H. unfold range.
  replace (Z.to_nat (b - a)) with 0%nat by lia. reflexivity.
Qed.

Lemma min_cases (a b : Q) :
  (a <= b /\ min a b = a) \/ (b < a /\ min a b = b).
Proof.
  unfold min. destruct (Qle_bool a b) eqn:E.
  - left. split; [now apply Qle_bool_iff | reflexivity].
  - right. split; [| reflexivity].
    apply Qnot_le_lt. intros H. apply Qle_bool_iff in H. congruence.
Qed.

(** For a positive modulus [x % m] lies in [0, m). *)
Lemma mod_bounds (x m : Q) : 0 < m -> 0 <= mod_ x m < m.
Proof.
  intros Hm. unfold mod_.
  pose proof (Qfloor_le (x / m)) as Hlo.
  pose proof (Qlt_floor (x / m)) as Hhi.
  rewrite inject_Z_plus in Hhi.
  assert (Hx : x == m * (x / m)) by (field; lra).
  set (f := inject_Z (Qfloor (x / m))) in *.
  apply (Qmult_le_l _ _ m Hm) in Hlo.
  apply (Qmult_lt_l _ _ m Hm) in Hhi.
  rewrite <- Hx in Hlo, Hhi. clear Hx. clearbody f.
  assert (E : m * (f + inject_Z 1) == m * f + m) by ring.
  rewrite E in Hhi. split; lra.
Qed.

Lemma floor_unit (y : Q) : 0 <= y < 1 -> Qfloor y = 0%Z.
Proof.
  intros [L H].
  pose proof (Qfloor_le y) as Lo. pose proof (Qlt_floor y) as Hi.
  assert (A : inject_Z (Qfloor y) < inject_Z 1) by (change (inject_Z 1) with 1; lra).
  assert (B : inject_Z 0 < inject_Z (Qfloor y + 1)) by (change (inject_Z 0) with 0; lra).
  rewrite <- Zlt_Qlt in A, B. lia.
Qed.

(** Below the modulus [x % m] is [x]. *)
Lemma mod_small (x m : Q) : 0 <= x < m -> mod_ x m == x.
Proof.
  intros [L H]. assert (Hm : 0 < m) by lra. unfold mod_.
  rewrite floor_unit; [change (inject_Z 0) with 0; ring |].
  split.
  - apply Qle_shift_div_l; [exact Hm | lra].
  - apply Qlt_shift_div_r; [exact Hm | lra].
Qed.

(** The bounds that define [math.ceil(x / c)] for a positive [c]. *)
Lemma ceil_div_bounds (x : Q) (c : Z) :
  (0 < c)%Z ->
  inject_Z ((ceil (x / inject_Z c) - 1) * c) < x
  /\ x <= inject_Z (ceil (x / inject_Z c) * c).
Proof.
  intros Hc. unfold ceil.
  assert (Hq : 0 < inject_Z c) by (rewrite Zlt_Qlt in Hc; exact Hc).
  pose proof (Qle_ceiling (x / inject_Z c)) as Hhi.
  pose proof (Qceiling_lt (x / inject_Z c)) as Hlo.
  assert (Hx : x == (x / inject_Z c) * inject_Z c) by (field; lra).
  rewrite !inject_Z_mult.
  set (n := Qceiling (x / inject_Z c)) in *.
  apply (Qmult_le_r _ _ _ Hq) in Hhi.
  apply (Qmult_lt_r _ _ _ Hq) in Hlo.
  rewrite <- Hx in Hhi, Hlo. split; assumption.
Qed.

End PyFacts.

(** ** Binary64 rounding *)

Module Float64Facts.

Import Py Float64.
Local Open Scope Q_scope.

Lemma pow2_pos (e : Z) : 0 < pow2 e.
Proof. apply Qpower_0_lt. reflexivity. Qed.

Lemma pow2_add (a b : Z) : pow2 (a + b) == pow2 a * pow2 b.
Proof. apply Qpower_plus. discriminate. Qed.

Lemma pow2_succ (a : Z) : pow2 (a + 1) == pow2 a * 2.
Proof. rewrite pow2_add. reflexivity. Qed.

Lemma pow2_Z (k : Z) : (0 <= k)%Z -> pow2 k == inject_Z (2 ^ k).
Proof. intros H. unfold pow2. now rewrite Zpower_Qpower. Qed.

Lemma pow2_le (a b : Z) : (a <= b)%Z -> pow2 a <= pow2 b.
Proof. intros H. apply Qpower_le_compat_l; [exact H | discriminate]. Qed.

Lemma pow2_lt (a b : Z) : (a < b)%Z -> pow2 a < pow2 b.
Proof. intros H. apply Qpower_lt_compat_l; [exact H | reflexivity]. Qed.

Lemma pow2_lt_inv (a b : Z) : pow2 a < pow2 b -> (a < b)%Z.
Proof. intros H. apply (Qpower_lt_compat_l_inv 2); [exact H | reflexivity]. Qed.

(** A power of two is an integer number of smaller powers of two. *)
Lemma pow2_split (k u : Z) :
  (u <= k)%Z -> pow2 k == inject_Z (2 ^ (k - u)) * pow2 u.
Proof.
  intros H. rewrite <- pow2_Z by lia. rewrite <- pow2_add.
  replace (k - u + u)%Z with k by lia. reflexivity.
Qed.

Lemma floor_eq (x y : Q) : x == y -> Qfloor x = Qfloor y.
Proof.
  intros E. apply Z.le_antisymm; apply Qfloor_resp_le; rewrite E; apply Qle_refl.
Qed.

(** [ilog2] gives the binade of a positive number. *)
Lemma ilog2_spec (q : Q) :
  0 < q -> pow2 (ilog2 q) <= q < pow2 (ilog2 q + 1).
Proof.
  intros P. destruct q as [n d].
  assert (N : (0 < n)%Z) by (unfold Qlt in P; cbn in P; lia).
  pose proof (Z.log2_spec n N) as [Ln Hn].
  pose proof (Z.log2_spec (Zpos d) eq_refl) as [Ld Hd].
  pose proof (Z.log2_nonneg n) as Nn.
  pose proof (Z.log2_nonneg (Zpos d)) as Nd.
  set (ln := Z.log2 n) in *. set (ld := Z.log2 (Zpos d)) in *.
  assert (Q0 : n # d == inject_Z n / inject_Z (Zpos d)) by apply Qmake_Qdiv.
  assert (Dp : 0 < inject_Z (Zpos d)) by reflexivity.
  assert (Lo : pow2 (ln - ld - 1) <= n # d).
  { rewrite Q0. apply Qle_shift_div_l; [exact Dp |].
    apply Qle_trans with (pow2 (ln - ld - 1) * inject_Z (2 ^ (ld + 1))).
    - apply Qmult_le_l; [apply pow2_pos |]. rewrite <- Zle_Qle. lia.
    - rewrite <- pow2_Z by lia. rewrite <- pow2_add.
      replace (ln - ld - 1 + (ld + 1))%Z with ln by lia.
      rewrite pow2_Z by lia. rewrite <- Zle_Qle. exact Ln. }
  assert (Hi : n # d < pow2 (ln - ld + 1)).
  { rewrite Q0. apply Qlt_shift_div_r; [exact Dp |].
    apply Qlt_le_trans with (pow2 (ln - ld + 1) * inject_Z (2 ^ ld)).
    - rewrite <- pow2_Z by lia. rewrite <- pow2_add.
      replace (ln - ld + 1 + ld)%Z with (ln + 1)%Z by lia.
      rewrite pow2_Z by lia. rewrite <- Zlt_Qlt. replace (ln + 1)%Z with (Z.succ ln) by lia. exact Hn.
    - apply Qmult_le_l; [apply pow2_pos |]. rewrite <- Zle_Qle. exact Ld. }
  unfold ilog2. cbn [Qnum Qden]. fold ln ld.
  destruct (Qle_bool (pow2 (ln - ld)) (n # d)) eqn:E.
  - apply Qle_bool_iff in E. split; [exact E | exact Hi].
  - split.
    + exact Lo.
    + replace (ln - ld - 1 + 1)%Z with (ln - ld)%Z by lia.
      apply Qnot_le_lt. intros L. apply Qle_bool_iff in L. congruence.
Qed.

Lemma ilog2_ge (q : Q) (k : Z) : pow2 k <= q -> (k <= ilog2 q)%Z.
Proof.
  intros H. assert (P : 0 < q) by (pose proof (pow2_pos k); lra).
  destruct (ilog2_spec q P) as [_ U].
  assert (L : pow2 k < pow2 (ilog2 q + 1)) by lra.
  apply pow2_lt_inv in L. lia.
Qed.

Lemma ilog2_lt (q : Q) (k : Z) : 0 < q -> q < pow2 k -> (ilog2 q < k)%Z.
Proof.
  intros P H. destruct (ilog2_spec q P) as [L _].
  assert (A : pow2 (ilog2 q) < pow2 k) by lra.
  now apply pow2_lt_inv in A.
Qed.

Lemma ilog2_le (q : Q) (k : Z) : 0 < q -> q <= pow2 k -> (ilog2 q <= k)%Z.
Proof.
  intros P H. assert (A : q < pow2 (k + 1)).
  { apply Qle_lt_trans with (pow2 k); [exact H | apply pow2_lt; lia]. }
  apply ilog2_lt in A; [lia | exact P].
Qed.

Lemma ilog2_unique (q : Q) (k : Z) :
  pow2 k <= q < pow2 (k + 1) -> ilog2 q = k.
Proof.
  intros [L H]. assert (P : 0 < q) by (pose proof (pow2_pos k); lra).
  pose proof (ilog2_ge q k L). pose proof (ilog2_lt q (k + 1) P H). lia.
Qed.

(** Rounding to an integer stays between the integers around. *)
Lemma rne_ge (x : Q) (a : Z) : inject_Z a <= x -> (a <= rne x)%Z.
Proof.
  intros H. apply Qfloor_resp_le in H. rewrite Qfloor_Z in H.
  unfold rne. destruct (Qle_bool _ _); [destruct (Qle_bool _ _);
    [destruct (Z.even _) |] |]; lia.
Qed.

Lemma rne_le (x : Q) (b : Z) : x <= inject_Z b -> (rne x <= b)%Z.
Proof.
  intros H. pose proof (Qfloor_le x) as F.
  pose proof (Qfloor_resp_le _ _ H) as Fb. rewrite Qfloor_Z in Fb.
  destruct (Z.eq_dec (Qfloor x) b) as [E | N].
  - assert (R : x - inject_Z (Qfloor x) == 0) by (rewrite E in F |- *; lra).
    unfold rne. cbv zeta.
    destruct (Qle_bool (x - inject_Z (Qfloor x)) (1 # 2)) eqn:A.
    + destruct (Qle_bool (1 # 2) (x - inject_Z (Qfloor x))) eqn:B; [| lia].
      apply Qle_bool_iff in B. lra.
    + assert (T : Qle_bool (x - inject_Z (Qfloor x)) (1 # 2) = true)
        by (apply Qle_bool_iff; lra).
      congruence.
  - unfold rne. destruct (Qle_bool _ _); [destruct (Qle_bool _ _);
      [destruct (Z.even _) |] |]; lia.
Qed.

Section Nearest.

Variable q : Q.
Let u := ulp_exp q.

Lemma nearest_ge (a : Z) :
  inject_Z a * pow2 u <= q -> inject_Z a * pow2 u <= nearest q.
Proof.
  intros H. unfold nearest. fold u. pose proof (pow2_pos u) as P.
  apply Qmult_le_r; [exact P |]. rewrite <- Zle_Qle. apply rne_ge.
  apply Qle_shift_div_l; assumption.
Qed.

Lemma nearest_le (b : Z) :
  q <= inject_Z b * pow2 u -> nearest q <= inject_Z b * pow2 u.
Proof.
  intros H. unfold nearest. fold u. pose proof (pow2_pos u) as P.
  apply Qmult_le_r; [exact P |]. rewrite <- Zle_Qle. apply rne_le.
  apply Qle_shift_div_r; assumption.
Qed.


(** Rounding does not cross a power of two. *)
Lemma nearest_ge_pow2 (k : Z) :
  (-1074 <= k)%Z -> pow2 k <= q -> pow2 k <= nearest q.
Proof.
  intros K H. pose proof (ilog2_ge q k H) as E.
  assert (P : 0 < q) by (pose proof (pow2_pos k); lra).
  destruct (ilog2_spec q P) as [Lo _].
  assert (U : (u <= Z.max k u <= ilog2 q)%Z) by (unfold u, ulp_exp in *; lia).
  apply Qle_trans with (pow2 (Z.max k u)); [apply pow2_le; lia |].
  rewrite (pow2_split (Z.max k u) u) by lia.
  apply nearest_ge. rewrite <- pow2_split by lia.
  apply Qle_trans with (pow2 (ilog2 q)); [apply pow2_le; lia | exact Lo].
Qed.

Lemma nearest_le_pow2 (k : Z) :
  (-1074 <= k)%Z -> 0 < q -> q <= pow2 k -> nearest q <= pow2 k.
Proof.
  intros K P H. pose proof (ilog2_le q k P H) as E.
  assert (U : (u <= k)%Z) by (unfold u, ulp_exp; lia).
  rewrite (pow2_split k u) by lia. apply nearest_le.
  now rewrite <- pow2_split by lia.
Qed.

End Nearest.

Lemma round_pos_eq (q : Q) : 0 < q -> round q = round_pos q.
Proof.
  intros P. unfold round.
  replace (Qeq_bool q 0) with false.
  - replace (Qle_bool 0 q) with true; [reflexivity |].
    symmetry. apply Qle_bool_iff. lra.
  - symmetry. destruct (Qeq_bool q 0) eqn:E; [| reflexivity].
    apply Qeq_bool_iff in E. lra.
Qed.

(** Between two powers of two in range, the rounded value is finite and
    between them. *)
Lemma round_between (q : Q) (a b : Z) :
  (-1074 <= a)%Z -> (-1074 <= b < 1024)%Z -> pow2 a <= q <= pow2 b ->
  round q = Finite (nearest q) /\ pow2 a <= nearest q <= pow2 b.
Proof.
  intros A B [L H]. assert (P : 0 < q) by (pose proof (pow2_pos a); lra).
  pose proof (nearest_ge_pow2 q a A L) as Lo.
  pose proof (nearest_le_pow2 q b ltac:(lia) P H) as Hi.
  split; [| split; assumption].
  rewrite round_pos_eq by exact P. unfold round_pos.
  replace (Qle_bool (pow2 1024) (nearest q)) with false; [reflexivity |].
  symmetry. destruct (Qle_bool (pow2 1024) (nearest q)) eqn:E; [| reflexivity].
  apply Qle_bool_iff in E. pose proof (pow2_lt b 1024 ltac:(lia)). lra.
Qed.

(** A positive binary64 value is on its own grid and below [2^1024]. *)
Lemma is_float_pos (q : Q) :
  is_float q = true -> 0 < q ->
  nearest q == q /\ q < pow2 1024.
Proof.
  intros F P. unfold is_float in F. rewrite round_pos_eq in F by exact P.
  unfold round_pos in F.
  destruct (Qle_bool (pow2 1024) (nearest q)) eqn:E; [discriminate |].
  apply Qeq_bool_iff in F. split; [exact F |].
  rewrite <- F. apply Qnot_le_lt. intros L. apply Qle_bool_iff in L. congruence.
Qed.



(** The inverse of a binary64 value in (1/2, 2] rounds into [1/2, 2). *)
Lemma inverse_of_mid (q : Q) :
  is_float q = true -> 1 # 2 < q <= 2 ->
  div 1 q = Finite (nearest (1 / q)) /\ 1 # 2 <= nearest (1 / q) < 2.
Proof.
  intros F [L H]. assert (P : 0 < q) by lra.
  destruct (Qlt_le_dec q 1) as [Small | Big].
  - (* 1/2 < q < 1: q is a multiple of 2^-53 above 1/2 *)
    destruct (is_float_pos q F P) as [G _].
    assert (E : ilog2 q = (-1)%Z).
    { apply ilog2_unique. change (pow2 (-1)) with (1 # 2).
      change (pow2 (-1 + 1)) with 1. split; lra. }
    assert (U : ulp_exp q = (-53)%Z) by (unfold ulp_exp; rewrite E; reflexivity).
    unfold nearest in G. rewrite U in G.
    set (n := rne (q / pow2 (-53))) in *.
    assert (N : (2 ^ 52 + 1 <= n)%Z).
    { assert (A : inject_Z (2 ^ 52) * pow2 (-53) < inject_Z n * pow2 (-53)).
      { rewrite G. change (inject_Z (2 ^ 52) * pow2 (-53)) with ((2 ^ 52 # 1) * pow2 (-53)).
        assert (T : (2 ^ 52 # 1) * pow2 (-53) == 1 # 2) by reflexivity.
        rewrite T. exact L. }
      apply (proj1 (Qmult_lt_r _ _ _ (pow2_pos (-53)))) in A.
      rewrite <- Zlt_Qlt in A. lia. }
    assert (C : inject_Z (2 ^ 52 + 1) * pow2 (-53) <= q).
    { rewrite <- G. apply Qmult_le_r; [apply pow2_pos |]. now rewrite <- Zle_Qle. }
    set (c := inject_Z (2 ^ 52 + 1) * pow2 (-53)) in *.
    set (top := inject_Z (2 ^ 53 - 1) * pow2 (-52)).
    assert (X1 : 1 <= 1 / q) by (apply Qle_shift_div_l; lra).
    assert (X2 : 1 / q <= top).
    { apply Qle_shift_div_r; [exact P |].
      apply Qle_trans with (top * c); [vm_compute; discriminate |].
      apply Qmult_le_l; [reflexivity | exact C]. }
    assert (T2 : top < 2) by reflexivity.
    assert (Ex : ilog2 (1 / q) = 0%Z).
    { apply ilog2_unique. change (pow2 0) with 1. change (pow2 (0 + 1)) with 2.
      split; lra. }
    assert (Ux : ulp_exp (1 / q) = (-52)%Z) by (unfold ulp_exp; rewrite Ex; reflexivity).
    pose proof (nearest_le (1 / q) (2 ^ 53 - 1)) as Hi. rewrite Ux in Hi.
    specialize (Hi X2). fold top in Hi.
    pose proof (nearest_ge_pow2 (1 / q) 0 ltac:(lia)) as Lo.
    change (pow2 0) with 1 in Lo. specialize (Lo X1).
    split; [| split; lra].
    unfold div. rewrite round_pos_eq by lra. unfold round_pos.
    replace (Qle_bool (pow2 1024) (nearest (1 / q))) with false; [reflexivity |].
    symmetry. destruct (Qle_bool (pow2 1024) (nearest (1 / q))) eqn:A; [| reflexivity].
    apply Qle_bool_iff in A.
    assert (2 < pow2 1024) by (change 2 with (pow2 1); apply pow2_lt; lia). lra.
  - (* 1 <= q <= 2 *)
    destruct (round_between (1 / q) (-1) 0) as [R [Lo Hi]]; try lia.
    + change (pow2 (-1)) with (1 # 2). change (pow2 0) with 1. split.
      * apply Qle_shift_div_l; lra.
      * apply Qle_shift_div_r; lra.
    + change (pow2 (-1)) with (1 # 2) in Lo. change (pow2 0) with 1 in Hi.
      split; [exact R | split; lra].
Qed.

Lemma nearest_nonneg (q : Q) : 0 <= q -> 0 <= nearest q.
Proof.
  intros H. unfold nearest. pose proof (pow2_pos (ulp_exp q)) as P.
  apply Qmult_le_0_compat; [| lra].
  change 0 with (inject_Z 0). rewrite <- Zle_Qle. apply rne_ge.
  change (inject_Z 0) with 0. apply Qle_shift_div_l; [exact P | lra].
Qed.

(** The remainder of a value that is not negative is exact. *)
Lemma rem_nonneg (v m : Q) : 0 <= v -> rem (Finite v) m = Finite (mod_ v m).
Proof. intros H. cbn [rem]. apply Qle_bool_iff in H. now rewrite H. Qed.

Lemma round_pos_cases (q : Q) :
  0 < q ->
  (round q = Finite (nearest q) /\ nearest q < pow2 1024)
  \/ (round q = Infinity false /\ pow2 1024 <= nearest q).
Proof.
  intros P. rewrite round_pos_eq by exact P. unfold round_pos.
  destruct (Qle_bool (pow2 1024) (nearest q)) eqn:E.
  - right. split; [reflexivity | now apply Qle_bool_iff].
  - left. split; [reflexivity |]. apply Qnot_le_lt. intros L.
    apply Qle_bool_iff in L. congruence.
Qed.

Lemma round_neg_cases (q : Q) :
  q < 0 ->
  (round q = Finite (- nearest (- q)) /\ nearest (- q) < pow2 1024)
  \/ (round q = Infinity true /\ pow2 1024 <= nearest (- q)).
Proof.
  intros N. unfold round.
  replace (Qeq_bool q 0) with false.
  2:{ symmetry. destruct (Qeq_bool q 0) eqn:E; [| reflexivity].
      apply Qeq_bool_iff in E. lra. }
  replace (Qle_bool 0 q) with false.
  2:{ symmetry. destruct (Qle_bool 0 q) eqn:E; [| reflexivity].
      apply Qle_bool_iff in E. lra. }
  unfold round_pos.
  destruct (Qle_bool (pow2 1024) (nearest (- q))) eqn:E; cbn [negate negb].
  - right. split; [reflexivity | now apply Qle_bool_iff].
  - left. split; [reflexivity |]. apply Qnot_le_lt. intros L.
    apply Qle_bool_iff in L. congruence.
Qed.

(** A number that rounds to an infinity is above [2^1023]. *)
Lemma overflow_is_large (x : Q) :
  0 < x -> pow2 1024 <= nearest x -> pow2 1023 < x.
Proof.
  intros P L. apply Qnot_le_lt. intros A.
  pose proof (nearest_le_pow2 x 1023 ltac:(lia) P A).
  pose proof (pow2_lt 1023 1024 ltac:(lia)). lra.
Qed.

(** When a number rounds to an infinity, so does its double. *)
Lemma double_overflow (x y : Q) :
  0 < x -> y == 2 * x -> pow2 1024 <= nearest x -> pow2 1024 <= nearest y.
Proof.
  intros P E L. pose proof (overflow_is_large x P L) as A.
  apply nearest_ge_pow2; [lia |].
  replace 1024%Z with (1023 + 1)%Z by lia. rewrite pow2_succ. lra.
Qed.




(** The inverse of a value between [2^-52] and 2 is finite. *)
Lemma inverse_small (b : Q) :
  pow2 (-52) <= b <= 2 ->
  div 1 b = Finite (nearest (1 / b)) /\ 1 # 2 <= nearest (1 / b).
Proof.
  intros [L H]. pose proof (pow2_pos (-52)) as P0.
  assert (P : 0 < b) by lra.
  assert (I : pow2 52 * pow2 (-52) == 1)
    by (rewrite <- pow2_add; reflexivity).
  pose proof (pow2_pos 52) as P52.
  destruct (round_between (1 / b) (-1) 52) as [R [Lo _]]; try lia.
  - change (pow2 (-1)) with (1 # 2). split.
    + apply Qle_shift_div_l; lra.
    + apply Qle_shift_div_r; [exact P |].
      apply Qle_trans with (pow2 52 * pow2 (-52));
        [rewrite I; apply Qle_refl |].
      apply Qmult_le_l; assumption.
  - change (pow2 (-1)) with (1 # 2) in Lo. split; assumption.
Qed.

End Float64Facts.

(** ** The speed check on binary64 values *)

Module SpeedFacts.

Import Py PyFacts Float64 Float64Facts Audiobook.
Local Open Scope Q_scope.

Lemma Qltb_true (x y : Q) : x < y -> Qltb x y = true.
Proof.
  intros H. unfold Qltb. destruct (Qle_bool y x) eqn:E; [| reflexivity].
  apply Qle_bool_iff in E. lra.
Qed.

Lemma Qltb_false (x y : Q) : y <= x -> Qltb x y = false.
Proof.
  intros H. unfold Qltb. apply Qle_bool_iff in H. now rewrite H.
Qed.

Lemma Qeq_bool_false (x y : Q) : ~ x == y -> Qeq_bool x y = false.
Proof.
  intros N. destruct (Qeq_bool x y) eqn:E; [| reflexivity].
  apply Qeq_bool_iff in E. contradiction.
Qed.

Lemma map_stages (a last : Q) (k : Z) :
  map multiplier (times (Finite a) k ++ [Finite last]) = times a k ++ [last].
Proof. unfold times. now rewrite map_app, map_repeat. Qed.



Lemma py_repeat_returns {A} (x : A) (n : Z) (l : list A) :
  py_repeat x n = inr l -> l = times x n.
Proof.
  unfold py_repeat. destruct (_ || _)%bool; [discriminate |].
  destruct (_ <? _)%Z; [discriminate |]. now intros [= <-].
Qed.

(** A finite quotient in (0, 2) passes the check. *)
Lemma check_passes (speed_factor v : Q) :
  0 < speed_factor -> div 1 speed_factor = Finite v -> 0 < v < 2 ->
  speed_invalid speed_factor = false.
Proof.
  intros P D [L H]. unfold speed_invalid. apply orb_false_iff. split.
  - destruct (Qle_bool speed_factor 0) eqn:E; [| reflexivity].
    apply Qle_bool_iff in E. lra.
  - rewrite D, rem_nonneg by lra. cbn [le].
    destruct (Qle_bool (mod_ v 2) 0) eqn:E; [| reflexivity].
    apply Qle_bool_iff in E. rewrite mod_small in E by (split; lra). lra.
Qed.

Lemma speed_valid_mid (speed_factor : Q) :
  is_float speed_factor = true -> 1 # 2 < speed_factor <= 2 ->
  speed_invalid speed_factor = false.
Proof.
  intros F B. destruct (inverse_of_mid speed_factor F B) as [D [L H]].
  apply (check_passes speed_factor _ ltac:(lra) D). split; lra.
Qed.


(** Between 0.5 and 2.0 the chain is the factor itself and nothing
    raises. *)
Lemma compile_chain_mid (speed_factor : Q) :
  1 # 2 <= speed_factor <= 2 ->
  compile_chain speed_factor = inr [Finite speed_factor].
Proof.
  intros [L H]. unfold compile_chain.
  now rewrite (Qltb_false 2 speed_factor H), (Qltb_false speed_factor (1 # 2) L).
Qed.


(** The remainder by 2 is zero exactly on the even integers. *)
Lemma mod2_zero (v : Q) :
  mod_ v 2 <= 0 <-> exists k : Z, v == inject_Z (2 * k).
Proof.
  pose proof (mod_bounds v 2 eq_refl) as [B _]. unfold mod_ in *. split.
  - intros H. exists (Qfloor (v / 2)).
    rewrite inject_Z_mult. change (inject_Z 2) with 2. lra.
  - intros [k E]. rewrite inject_Z_mult in E. change (inject_Z 2) with 2 in E.
    assert (D : v / 2 == inject_Z k) by (rewrite E; field).
    rewrite (floor_eq _ _ D), Qfloor_Z. lra.
Qed.

(** A remainder by 2 that is not zero is at least the step of the grid
    the number lies on. *)
Lemma mod2_grid (v : Q) (n u : Z) :
  v == inject_Z n * pow2 u -> 0 < mod_ v 2 -> pow2 u <= mod_ v 2.
Proof.
  intros Gv Pm. destruct (Z_lt_le_dec 1 u) as [Big | Le].
  - exfalso.
    assert (Z0 : mod_ v 2 <= 0).
    { apply mod2_zero. exists (n * 2 ^ (u - 1))%Z.
      rewrite Gv, (pow2_Z u) by lia. rewrite <- inject_Z_mult.
      apply inject_Z_injective.
      replace (2 ^ u)%Z with (2 * 2 ^ (u - 1))%Z; [ring |].
      rewrite <- Z.pow_succ_r by lia. f_equal. lia. }
    lra.
  - assert (T : 2 == inject_Z (2 ^ (1 - u)) * pow2 u).
    { rewrite <- pow2_split by lia. reflexivity. }
    assert (J : mod_ v 2
                == inject_Z (n - 2 ^ (1 - u) * Qfloor (v / 2)) * pow2 u).
    { unfold mod_. set (f := Qfloor (v / 2)). clearbody f.
      transitivity (inject_Z n * pow2 u
                    - inject_Z (2 ^ (1 - u)) * pow2 u * inject_Z f).
      - rewrite <- T, <- Gv. reflexivity.
      - unfold Z.sub. rewrite inject_Z_plus, inject_Z_opp, inject_Z_mult.
        ring. }
    set (j := (n - 2 ^ (1 - u) * Qfloor (v / 2))%Z) in *.
    assert (Jp : (1 <= j)%Z).
    { assert (A : inject_Z 0 * pow2 u < inject_Z j * pow2 u)
        by (rewrite <- J; change (inject_Z 0) with 0; lra).
      apply (proj1 (Qmult_lt_r _ _ _ (pow2_pos u))) in A.
      rewrite <- Zlt_Qlt in A. lia. }
    rewrite J.
    setoid_replace (pow2 u) with (inject_Z 1 * pow2 u) at 1
      by (change (inject_Z 1) with 1; ring).
    apply Qmult_le_r; [apply pow2_pos |]. now rewrite <- Zle_Qle.
Qed.

(** A positive factor is refused exactly when its rounded inverse is an
    even integer. *)
Lemma rejected_iff (speed_factor : Q) :
  0 < speed_factor ->
  speed_invalid speed_factor = true <->
  exists (v : Q) (k : Z),
    div 1 speed_factor = Finite v /\ v == inject_Z (2 * k).
Proof.
  intros P. unfold speed_invalid.
  replace (Qle_bool speed_factor 0) with false.
  2:{ symmetry. destruct (Qle_bool speed_factor 0) eqn:E; [| reflexivity].
      apply Qle_bool_iff in E. lra. }
  cbn [orb]. unfold div.
  assert (Px : 0 < 1 / speed_factor) by (apply Qlt_shift_div_l; lra).
  destruct (round_pos_cases _ Px) as [[R _] | [R _]]; rewrite R.
  - rewrite rem_nonneg by (apply nearest_nonneg; lra). cbn [le]. split.
    + intros H. apply Qle_bool_iff, mod2_zero in H. destruct H as [k E].
      now exists (nearest (1 / speed_factor)), k.
    + intros (v & k & D & E). injection D as <-.
      apply Qle_bool_iff, mod2_zero. now exists k.
  - cbn [rem le]. split; [discriminate |].
    intros (v & k & D & _). discriminate.
Qed.

(** From [2^53] on, every value of the grid is an even integer. *)
Lemma nearest_large_even (x : Q) :
  pow2 53 <= x -> exists k : Z, nearest x == inject_Z (2 * k).
Proof.
  intros L.
  pose proof (ilog2_ge x 53 L) as E.
  assert (U : (1 <= ulp_exp x)%Z) by (unfold ulp_exp; lia).
  exists (rne (x / pow2 (ulp_exp x)) * 2 ^ (ulp_exp x - 1))%Z.
  unfold nearest. set (n := rne (x / pow2 (ulp_exp x))). clearbody n.
  rewrite (pow2_Z (ulp_exp x)) by lia.
  rewrite <- inject_Z_mult.
  replace (2 ^ ulp_exp x)%Z with (2 * 2 ^ (ulp_exp x - 1))%Z.
  - apply inject_Z_injective. ring.
  - rewrite <- Z.pow_succ_r by lia. f_equal. lia.
Qed.

Lemma large_is_even (x : Q) :
  pow2 53 <= x <= pow2 1023 ->
  round x = Finite (nearest x) /\ exists k : Z, nearest x == inject_Z (2 * k).
Proof.
  intros [L H].
  destruct (round_between x 53 1023) as [R _]; try lia; [now split |].
  split; [exact R | now apply nearest_large_even].
Qed.

Lemma tiny_is_rejected (speed_factor : Q) :
  pow2 (-1023) <= speed_factor <= pow2 (-53) ->
  speed_invalid speed_factor = true.
Proof.
  intros [L H]. pose proof (pow2_pos (-1023)) as P0.
  assert (P : 0 < speed_factor) by lra.
  apply rejected_iff; [exact P |].
  assert (A : pow2 (-53) * pow2 53 == 1) by (rewrite <- pow2_add; reflexivity).
  assert (B : pow2 (-1023) * pow2 1023 == 1) by (rewrite <- pow2_add; reflexivity).
  pose proof (pow2_pos 53) as P53. pose proof (pow2_pos 1023) as P1023.
  destruct (large_is_even (1 / speed_factor)) as [R [k E]].
  - split.
    + apply Qle_shift_div_l; [exact P |].
      apply Qle_trans with (pow2 53 * pow2 (-53)); [| rewrite Qmult_comm, A; apply Qle_refl].
      apply Qmult_le_l; assumption.
    + apply Qle_shift_div_r; [exact P |].
      apply Qle_trans with (pow2 1023 * pow2 (-1023)); [rewrite Qmult_comm, B; apply Qle_refl |].
      apply Qmult_le_l; assumption.
  - exists (nearest (1 / speed_factor)), k. split; [exact R | exact E].
Qed.

(** When [2 / speed_factor] is finite, so is [1 / speed_factor]. *)
Lemma inverse_is_finite (speed_factor twice : Q) :
  ~ speed_factor == 0 -> div 2 speed_factor = Finite twice ->
  exists inverse, div 1 speed_factor = Finite inverse.
Proof.
  intros N D. unfold div in *.
  destruct (Qlt_le_dec 0 speed_factor) as [P | NP].
  - assert (P1 : 0 < 1 / speed_factor) by (apply Qlt_shift_div_l; lra).
    assert (P2 : 0 < 2 / speed_factor) by (apply Qlt_shift_div_l; lra).
    destruct (round_pos_cases _ P2) as [[R F] | [R _]]; rewrite R in D;
      [| discriminate].
    destruct (round_pos_cases _ P1) as [[R1 _] | [_ O]]; [eauto |].
    exfalso.
    apply (double_overflow _ (2 / speed_factor) P1) in O; [lra | field; lra].
  - assert (Neg : speed_factor < 0)
      by (destruct (Qle_lt_or_eq _ _ NP) as [A | A]; [exact A | contradiction]).
    set (a := 1 / speed_factor) in *. set (b := 2 / speed_factor) in *.
    assert (Ea : - a == 1 / (- speed_factor)) by (unfold a; field; exact N).
    assert (Eb : b == 2 * a) by (unfold a, b; field; exact N).
    assert (Pa : 0 < - a) by (rewrite Ea; apply Qlt_shift_div_l; lra).
    destruct (round_neg_cases b ltac:(lra)) as [[R F] | [R _]]; rewrite R in D;
      [| discriminate].
    destruct (round_neg_cases a ltac:(lra)) as [[R1 _] | [_ O]]; [eauto |].
    exfalso. apply (double_overflow _ (- b) Pa) in O; [lra | lra].
Qed.

(** Below 0.5, a remainder of the rounded inverse that is not zero is at
    least [2^-52]. *)
Lemma remainder_bound (speed_factor w : Q) :
  speed_factor < 1 # 2 -> ~ speed_factor == 0 ->
  div 1 speed_factor = Finite w ->
  0 < mod_ w 2 -> pow2 (-52) <= mod_ w 2.
Proof.
  intros H N D Pm. unfold div in D.
  destruct (Qlt_le_dec 0 speed_factor) as [P | NP].
  - set (x := 1 / speed_factor) in *.
    assert (Hx : 2 < x) by (apply Qlt_shift_div_l; lra).
    destruct (round_pos_cases x ltac:(lra)) as [[R _] | [R _]];
      rewrite R in D; [| discriminate].
    injection D as <-.
    assert (E1 : (1 <= ilog2 x)%Z)
      by (apply ilog2_ge; change (pow2 1) with 2; lra).
    apply Qle_trans with (pow2 (ulp_exp x));
      [apply pow2_le; unfold ulp_exp; lia |].
    apply (mod2_grid _ (rne (x / pow2 (ulp_exp x)))); [reflexivity | exact Pm].
  - assert (Neg : speed_factor < 0)
      by (destruct (Qle_lt_or_eq _ _ NP) as [A | A]; [exact A | contradiction]).
    set (a := 1 / speed_factor) in *.
    assert (Ea : - a == 1 / (- speed_factor)) by (unfold a; field; exact N).
    assert (Pa : 0 < - a) by (rewrite Ea; apply Qlt_shift_div_l; lra).
    destruct (round_neg_cases a ltac:(lra)) as [[R _] | [R _]];
      rewrite R in D; [| discriminate].
    injection D as <-. set (x := - a) in *.
    destruct (Qlt_le_dec x 1) as [Small | Big].
    + pose proof (nearest_le_pow2 x 0 ltac:(lia) Pa) as Hi.
      change (pow2 0) with 1 in Hi. specialize (Hi (Qlt_le_weak _ _ Small)).
      pose proof (nearest_nonneg x (Qlt_le_weak _ _ Pa)) as Lo.
      set (v := nearest x) in *. clearbody v.
      unfold mod_ in *. set (f := Qfloor (- v / 2)) in *. clearbody f.
      assert (F : inject_Z f <= inject_Z (-1)).
      { rewrite <- Zle_Qle.
        assert (A : inject_Z f < inject_Z 0)
          by (change (inject_Z 0) with 0; lra).
        rewrite <- Zlt_Qlt in A. lia. }
      change (inject_Z (-1)) with (-1 # 1) in F.
      pose proof (pow2_le (-52) 0 ltac:(lia)) as B.
      change (pow2 0) with 1 in B. lra.
    + assert (E0 : (0 <= ilog2 x)%Z)
        by (apply ilog2_ge; change (pow2 0) with 1; exact Big).
      apply Qle_trans with (pow2 (ulp_exp x));
        [apply pow2_le; unfold ulp_exp; lia |].
      apply (mod2_grid _ (- rne (x / pow2 (ulp_exp x)))); [| exact Pm].
      unfold nearest. rewrite inject_Z_opp. ring.
Qed.

(** The last stage of line 102, [1 / b] for the remainder [b] of a finite
    inverse: a remainder of zero raises, another one gives a finite stage
    of at least 0.5. *)
Lemma last_stage (v : Q) :
  (0 < mod_ v 2 -> pow2 (-52) <= mod_ v 2) ->
  (py_div_by 1 (rem (Finite v) 2) = inl ZeroDivisionError /\ mod_ v 2 <= 0)
  \/ exists last : Q,
       py_div_by 1 (rem (Finite v) 2) = inr (Finite last)
       /\ 1 # 2 <= last
       /\ 0 < mod_ v 2
       /\ (0 <= v -> div 1 (mod_ v 2) = Finite last).
Proof.
  intros B. pose proof (mod_bounds v 2 eq_refl) as [M0 M2].
  set (m := mod_ v 2) in *. cbn [rem]. fold m.
  destruct (Qeq_bool m 0) eqn:Z.
  - left. apply Qeq_bool_iff in Z. split; [| lra].
    destruct (Qle_bool 0 v); cbn [py_div_by]; unfold py_div.
    + apply Qeq_bool_iff in Z. now rewrite Z.
    + unfold round. apply Qeq_bool_iff in Z. rewrite Z. reflexivity.
  - right.
    assert (Pm : 0 < m).
    { destruct (Qle_lt_or_eq _ _ M0) as [A | A]; [exact A |].
      symmetry in A. apply Qeq_bool_iff in A. congruence. }
    specialize (B Pm). pose proof (pow2_pos (-52)) as P0.
    destruct (Qle_bool 0 v) eqn:S.
    + destruct (inverse_small m) as [D L]; [split; lra |].
      exists (nearest (1 / m)). cbn [py_div_by]. unfold py_div. rewrite Z.
      repeat apply conj; try assumption; [now rewrite D | intros _; exact D].
    + destruct (round_between m (-52) 1) as [R [Lo Hi]]; try lia.
      { change (pow2 1) with 2. split; lra. }
      change (pow2 1) with 2 in Hi.
      destruct (inverse_small (nearest m)) as [D L]; [split; assumption |].
      exists (nearest (1 / nearest m)). rewrite R. cbn [py_div_by].
      unfold py_div. rewrite (Qeq_bool_false (nearest m) 0) by lra.
      repeat apply conj; try assumption; [now rewrite D |].
      intros Nv. apply Qle_bool_iff in Nv. congruence.
Qed.

(** Below 0.5, a chain that is built has the parts of lines 101-102, all
    finite. *)
Lemma compile_chain_slow (speed_factor : Q) (chain : list value) :
  speed_factor < 1 # 2 -> compile_chain speed_factor = inr chain ->
  exists twice inverse last : Q,
    div 2 speed_factor = Finite twice
    /\ div 1 speed_factor = Finite inverse
    /\ 0 < mod_ inverse 2
    /\ 1 # 2 <= last
    /\ (0 <= inverse -> div 1 (mod_ inverse 2) = Finite last)
    /\ chain = times (Finite (1 # 2)) (floor twice) ++ [Finite last].
Proof.
  intros H C. unfold compile_chain in C.
  rewrite (Qltb_false 2 speed_factor ltac:(lra)) in C.
  rewrite (Qltb_true speed_factor (1 # 2) H) in C.
  unfold py_div in C.
  destruct (Qeq_bool speed_factor 0) eqn:N0; [discriminate |].
  assert (N : ~ speed_factor == 0)
    by (intros E; apply Qeq_bool_iff in E; congruence).
  destruct (div 2 speed_factor) as [twice | |] eqn:D2; cbn [py_floor] in C;
    try discriminate.
  destruct (py_repeat (Finite (1 # 2)) (Py.floor twice)) as [e | stages] eqn:R;
    [discriminate |].
  apply py_repeat_returns in R. subst stages.
  destruct (inverse_is_finite _ _ N D2) as [inverse D1]. rewrite D1 in C.
  destruct (last_stage inverse (remainder_bound _ _ H N D1))
    as [[Z _] | (last & L & B & Pm & Dl)]; rewrite ?Z, ?L in C;
    [discriminate |].
  injection C as <-. exists twice, inverse, last.
  repeat apply conj; auto.
Qed.

(** Every stage of a chain that is built is finite: the chain is given by
    its multipliers. *)
Lemma stages_are_finite (speed_factor : Q) (chain : list value) :
  compile_chain speed_factor = inr chain ->
  chain = map Finite (tempo_chain speed_factor).
Proof.
  intros C. unfold tempo_chain. rewrite C.
  destruct (Qlt_le_dec 2 speed_factor) as [Fast | NF].
  - unfold compile_chain in C. rewrite (Qltb_true 2 speed_factor Fast) in C.
    destruct (py_div speed_factor 2) as [e | half]; [discriminate |].
    destruct (py_floor half) as [e | k]; [discriminate |].
    destruct (py_repeat (Finite 2) k) as [e | stages] eqn:R; [discriminate |].
    apply py_repeat_returns in R. subst stages.
    rewrite rem_nonneg in C by lra. injection C as <-. rewrite map_stages.
    unfold times. now rewrite map_app, map_repeat.
  - destruct (Qlt_le_dec speed_factor (1 # 2)) as [Slow | NS].
    + destruct (compile_chain_slow _ _ Slow C)
        as (twice & inverse & last & _ & _ & _ & _ & _ & ->).
      rewrite map_stages. unfold times. now rewrite map_app, map_repeat.
    + rewrite compile_chain_mid in C by (split; assumption).
      now injection C as <-.
Qed.




End SpeedFacts.

(** ** The chunk plan *)

Module PlanFacts.

Import Py PyFacts Audiobook.
Local Open Scope Q_scope.

Section Plan.

Variables (total_duration : Q) (chunk_duration : Z).
Hypothesis duration_pos : 0 < total_duration.
Hypothesis chunk_pos : (0 < chunk_duration)%Z.

Let cs := chunk_seconds chunk_duration.
Let n := ceil (total_duration / inject_Z cs).
Let chunk_at := plan_chunk total_duration chunk_duration.

Lemma cs_pos : (0 < cs)%Z.
Proof. unfold cs, chunk_seconds. lia. Qed.

Lemma n_bounds :
  inject_Z ((n - 1) * cs) < total_duration <= inject_Z (n * cs).
Proof. apply ceil_div_bounds, cs_pos. Qed.



Lemma start_mono (i j : Z) :
  (i <= j)%Z -> inject_Z (i * cs) <= inject_Z (j * cs).
Proof. intros H. pose proof cs_pos. rewrite <- Zle_Qle. nia. Qed.

Lemma start_before_end (i : Z) :
  (i < n)%Z -> inject_Z (i * cs) < total_duration.
Proof.
  intros H. destruct n_bounds as [L _].
  pose proof (start_mono i (n - 1) ltac:(lia)). lra.
Qed.



Lemma duration_bounds (i : Z) :
  (i < n)%Z -> 0 < duration (chunk_at i) <= inject_Z cs.
Proof.
  intros H. unfold chunk_at, plan_chunk. cbn [duration]. fold cs.
  pose proof (start_before_end i H). pose proof cs_pos as C.
  rewrite Zlt_Qlt in C. change (inject_Z 0) with 0 in C.
  destruct (min_cases (inject_Z cs) (total_duration - inject_Z (i * cs)))
    as [[L E] | [L E]]; rewrite E; lra.
Qed.

Lemma end_within (i : Z) :
  inject_Z (start_time (chunk_at i)) + duration (chunk_at i) <= total_duration.
Proof.
  unfold chunk_at, plan_chunk. cbn [duration start_time]. fold cs.
  destruct (min_cases (inject_Z cs) (total_duration - inject_Z (i * cs)))
    as [[L E] | [L E]]; rewrite E; lra.
Qed.


(** The clamp of line 65 only lowers the number of chunks. *)
Lemma total_chunks_le (start_chunk : Z) (max_chunks : option Z) :
  (total_chunks total_duration chunk_duration start_chunk max_chunks <= n)%Z.
Proof. unfold total_chunks. fold cs n. destruct max_chunks; lia. Qed.

Lemma plan_In (start_chunk : Z) (max_chunks : option Z) (c : chunk) :
  In c (chunk_plan total_duration chunk_duration start_chunk max_chunks) <->
  exists i, c = chunk_at i /\
    (start_chunk - 1 <= i
     < total_chunks total_duration chunk_duration start_chunk max_chunks)%Z.
Proof.
  unfold chunk_plan. rewrite in_map_iff. split.
  - intros (i & <- & H). apply range_In in H. now exists i.
  - intros (i & -> & H). exists i. split; [reflexivity | now apply range_In].
Qed.






End Plan.

End PlanFacts.

(** ** Runs of the chunker *)

Module RunFacts.

Import Py PyFacts Audiobook PlanFacts.
Local Open Scope Q_scope.

Lemma transforms_app (a b : list event) :
  transforms (a ++ b) = transforms a ++ transforms b.
Proof.
  induction a as [| e a IH]; [reflexivity |].
  destruct e; cbn; rewrite IH; reflexivity.
Qed.

Lemma printed_app (a b : list event) :
  printed (a ++ b) = printed a ++ printed b.
Proof.
  induction a as [| e a IH]; [reflexivity |].
  destruct e; cbn; rewrite IH; reflexivity.
Qed.

Lemma bind_emit {B} (e : event) (k : unit -> run B) :
  bind (emit e) k = (e :: fst (k tt), snd (k tt)).
Proof. reflexivity. Qed.

Lemma bind_raises {A B} (c : run A) (k : A -> run B) (e : exn) :
  snd c = inl e -> bind c k = (fst c, inl e).
Proof. intros H. unfold bind. now rewrite H. Qed.

Lemma bind_returns {A B} (c : run A) (k : A -> run B) (a : A) :
  snd c = inr a -> bind c k = (fst c ++ fst (k a), snd (k a)).
Proof. intros H. unfold bind. now rewrite H. Qed.

Section World.

Variable float : string -> option Q.
Variable ffprobe : string -> completed.
Variable ffmpeg : ffmpeg_cmd -> Z.

(** The probe runs no transform and prints only its own two messages. *)
Lemma get_duration_trace (input_file : string) :
  exists ms,
    trace (get_duration float ffprobe input_file)
    = Run_ffprobe input_file :: map Print ms
    /\ forall m, In m ms ->
         m = Probe_duration (rstrip (stdout (ffprobe input_file)))
         \/ m = Probe_error (stderr (ffprobe input_file)).
Proof.
  unfold get_duration, trace, bind.
  destruct (negb (rstrip (stdout (ffprobe input_file)) =? "")%string).
  - exists [Probe_duration (rstrip (stdout (ffprobe input_file)))].
    split; [| intros m [<- | []]; now left].
    cbn. now destruct (float _).
  - destruct (negb (stderr (ffprobe input_file) =? "")%string).
    + exists [Probe_error (stderr (ffprobe input_file))].
      split; [reflexivity | intros m [<- | []]; now right].
    + exists []. split; [reflexivity | intros m []].
Qed.

Lemma get_duration_transforms (input_file : string) :
  transforms (trace (get_duration float ffprobe input_file)) = [].
Proof.
  destruct (get_duration_trace input_file) as (ms & -> & _). cbn.
  induction ms; [reflexivity | exact IHms].
Qed.

Lemma get_duration_printed (input_file : string) (m : message) :
  In m (printed (trace (get_duration float ffprobe input_file))) ->
  m = Probe_duration (rstrip (stdout (ffprobe input_file)))
  \/ m = Probe_error (stderr (ffprobe input_file)).
Proof.
  destruct (get_duration_trace input_file) as (ms & -> & H). cbn.
  intros I. apply H. clear H. induction ms as [| x ms IH]; [exact I |].
  destruct I as [<- | I]; [now left | right; auto].
Qed.

Section Loop.

Variables (input_file output_dir : string) (chunk_duration : Z)
          (speed_factor : Q) (audio_quality sample_rate : string)
          (total_duration : Q) (last : Z).

Let loop := chunk_loop ffmpeg input_file output_dir chunk_duration
              speed_factor audio_quality sample_rate total_duration last.
Let cmd_at (i : Z) :=
  build_cmd input_file output_dir speed_factor audio_quality sample_rate
    (plan_chunk total_duration chunk_duration i).

(** The loop returns when the speed is rejected or the chain is built
    without an exception. *)
Lemma chunk_loop_returns (indices : list Z) :
  speed_invalid speed_factor = true \/ chain_exception speed_factor = None ->
  snd (loop indices) = inr tt.
Proof.
  intros H. induction indices as [| i rest IH]; [reflexivity |].
  unfold loop in *. cbn [chunk_loop].
  destruct (speed_invalid speed_factor); [reflexivity |].
  destruct H as [H | H]; [discriminate |]. rewrite H.
  rewrite !bind_emit. cbn [snd].
  destruct (ffmpeg _ =? 0)%Z.
  - rewrite (bind_returns (ret tt) _ tt eq_refl). exact IH.
  - rewrite bind_emit. exact IH.
Qed.

(** With a rejected speed the first iteration prints and leaves. *)
Lemma chunk_loop_invalid (indices : list Z) :
  speed_invalid speed_factor = true ->
  trace (loop indices)
  = match indices with [] => [] | _ => [Print Speed_too_small] end.
Proof.
  intros H. destruct indices; unfold loop; cbn [chunk_loop];
    [| rewrite H]; reflexivity.
Qed.

(** With an accepted speed whose chain raises, the first iteration raises
    before it prints or runs anything. *)
Lemma chunk_loop_raises (indices : list Z) (e : exn) :
  speed_invalid speed_factor = false ->
  chain_exception speed_factor = Some e ->
  loop indices = match indices with [] => ret tt | _ => raise e end.
Proof.
  intros H C. destruct indices; unfold loop; cbn [chunk_loop];
    [| rewrite H, C]; reflexivity.
Qed.

(** One iteration with an accepted speed whose chain is built. *)
Lemma chunk_loop_step (i : Z) (rest : list Z) :
  speed_invalid speed_factor = false ->
  chain_exception speed_factor = None ->
  loop (i :: rest)
  = (Print (Processing_chunk (i + 1) last) :: Print (Command (cmd_at i))
       :: Run_ffmpeg (cmd_at i)
       :: (if (ffmpeg (cmd_at i) =? 0)%Z then []
           else [Print (Chunk_error (i + 1))]) ++ fst (loop rest),
     snd (loop rest)).
Proof.
  intros H C. unfold loop. cbn [chunk_loop]. rewrite H, C.
  fold (cmd_at i). rewrite !bind_emit. cbn [fst snd].
  destruct (ffmpeg (cmd_at i) =? 0)%Z.
  - rewrite (bind_returns (ret tt) _ tt eq_refl). reflexivity.
  - rewrite bind_emit. reflexivity.
Qed.

(** With an accepted speed every index gets its transform, in order,
    whatever the exit status of the earlier ones. *)
Lemma chunk_loop_valid (indices : list Z) :
  speed_invalid speed_factor = false ->
  chain_exception speed_factor = None ->
  transforms (trace (loop indices)) = map cmd_at indices
  /\ ~ In Speed_too_small (printed (trace (loop indices))).
Proof.
  intros H C. induction indices as [| i rest [IH1 IH2]].
  - split; [reflexivity | intros []].
  - rewrite (chunk_loop_step i rest H C). unfold trace in *. cbn [fst].
    cbn [transforms printed]. rewrite transforms_app, printed_app, IH1.
    destruct (ffmpeg (cmd_at i) =? 0)%Z; cbn [transforms printed List.app map];
      (split; [reflexivity |]); intros [E | [E | I]];
      try discriminate; auto.
    destruct I as [E | I]; [discriminate | auto].
Qed.

(** An error message is printed for exactly the transforms that fail. *)
Lemma chunk_loop_errors (indices : list Z) :
  speed_invalid speed_factor = false ->
  chain_exception speed_factor = None ->
  chunk_errors (trace (loop indices))
  = map (fun i => Chunk_error (i + 1))
      (filter (fun i => negb (ffmpeg (cmd_at i) =? 0)%Z) indices).
Proof.
  intros H C. induction indices as [| i rest IH]; [reflexivity |].
  rewrite (chunk_loop_step i rest H C).
  unfold trace, chunk_errors in *. cbn [fst printed filter is_chunk_error].
  rewrite printed_app, filter_app, IH.
  destruct (ffmpeg (cmd_at i) =? 0)%Z; reflexivity.
Qed.

End Loop.

Section Process.

Variables (input_file output_dir : string) (chunk_duration : Z)
          (speed_factor : Q) (start_chunk : Z) (max_chunks : option Z)
          (audio_quality sample_rate : string).

Let r := process_audiobook float ffprobe ffmpeg input_file output_dir
           chunk_duration speed_factor start_chunk max_chunks
           audio_quality sample_rate.
Let g := get_duration float ffprobe input_file.

(** The run, by the outcome of the probe. *)
Lemma process_unfold :
  r = match snd g with
      | inl e => (Mkdir output_dir :: fst g, inl e)
      | inr total_duration =>
          if Qeq_bool total_duration 0 then
            (Mkdir output_dir :: fst g
               ++ [Print (Cannot_determine input_file)], inr tt)
          else if (chunk_seconds chunk_duration =? 0)%Z then
            (Mkdir output_dir :: fst g ++ [], inl ZeroDivisionError)
          else
            let last := total_chunks total_duration chunk_duration
                          start_chunk max_chunks in
            let l := chunk_loop ffmpeg input_file output_dir chunk_duration
                       speed_factor audio_quality sample_rate
                       total_duration last
                       (range (start_chunk - 1) last) in
            (Mkdir output_dir :: fst g
               ++ Print (Total_minutes (total_duration / 60))
               :: Print (Processing_chunks start_chunk last) :: fst l,
             snd l)
      end.
Proof.
  unfold r, process_audiobook. fold g. generalize g. clear g. intros g.
  rewrite bind_emit.
  destruct (snd g) as [e | T] eqn:G;
    [rewrite (bind_raises _ _ _ G) | rewrite (bind_returns _ _ _ G)];
    cbn [fst snd]; [reflexivity |].
  destruct (Qeq_bool T 0); [reflexivity |].
  destruct (chunk_seconds chunk_duration =? 0)%Z; [reflexivity |].
  rewrite !bind_emit. reflexivity.
Qed.

(** With an accepted speed the transforms of a run are the commands of
    the chunk plan, in order. *)
Lemma transforms_follow_plan (total_duration : Q) :
  snd g = inr total_duration -> ~ total_duration == 0 ->
  chunk_seconds chunk_duration <> 0%Z ->
  speed_invalid speed_factor = false ->
  chain_exception speed_factor = None ->
  transforms (trace r)
  = map (build_cmd input_file output_dir speed_factor audio_quality
           sample_rate)
      (chunk_plan total_duration chunk_duration start_chunk max_chunks).
Proof.
  intros G T0 C V X. rewrite process_unfold, G.
  destruct (Qeq_bool total_duration 0) eqn:E;
    [apply Qeq_bool_iff in E; contradiction |].
  destruct (Z.eqb_spec (chunk_seconds chunk_duration) 0); [contradiction |].
  unfold trace. cbn [fst]. cbn [transforms].
  rewrite transforms_app. fold (trace g). unfold g.
  rewrite get_duration_transforms. cbn.
  unfold chunk_plan. rewrite map_map.
  apply chunk_loop_valid; assumption.
Qed.

(** With an accepted speed whose chain raises, no transform runs. *)
Lemma no_transform_when_chain_raises (total_duration : Q) (e : exn) :
  snd g = inr total_duration ->
  speed_invalid speed_factor = false ->
  chain_exception speed_factor = Some e ->
  transforms (trace r) = [].
Proof.
  intros G V X. rewrite process_unfold, G.
  destruct (Qeq_bool total_duration 0);
    [| destruct (chunk_seconds chunk_duration =? 0)%Z];
    cbv zeta; unfold trace; cbn [fst transforms];
    rewrite transforms_app; fold (trace g); unfold g;
    rewrite get_duration_transforms; cbn [List.app transforms];
    try reflexivity.
  rewrite (chunk_loop_raises _ _ _ _ _ _ _ _ _ e V X).
  now destruct (range _ _).
Qed.

End Process.

End World.

End RunFacts.

(** ** The audiobook chunker: the claims *)

Module AudiobookSpec.

Import Py PyFacts Audiobook PlanFacts.
Local Open Scope Q_scope.



(** C9.  For a positive total duration, a positive chunk length, a start
    chunk of at least 1 and [max_chunks] absent or positive, every planned
    chunk has a strictly positive duration of at most [chunk_seconds]. *)
Theorem planned_duration_positive (total_duration : Q)
    (chunk_duration start_chunk : Z) (max_chunks : option Z) (c : chunk) :
  0 < total_duration -> (0 < chunk_duration)%Z -> (1 <= start_chunk)%Z ->
  match max_chunks with Some m => (0 < m)%Z | None => True end ->
  In c (chunk_plan total_duration chunk_duration start_chunk max_chunks) ->
  0 < duration c <= inject_Z (chunk_seconds chunk_duration).
Proof.
  intros HT Hc _ _ H. apply plan_In in H. destruct H as (i & -> & [_ L]).
  apply duration_bounds; trivial.
  pose proof (total_chunks_le total_duration chunk_duration start_chunk max_chunks).
  lia.
Qed.

(** The third chunk of 1500.5 seconds, starting from chunk 2 with at most
    five chunks, lasts 300.5 seconds. *)
Lemma planned_duration_positive_witness :
  0 < 601 # 2 <= inject_Z (chunk_seconds 10).
Proof.
  apply (planned_duration_positive (3001 # 2) 10 2 (Some 5%Z)
           (mk_chunk 3 1200 (601 # 2))).
  - reflexivity.
  - reflexivity.
  - discriminate.
  - reflexivity.
  - right. left. reflexivity.
Defined.

(** C2.  The chain built for 3.0, a factor that passes the check of line 90
    and is not 1.0, is [2.0, 1.0]: its stages lie in [0.5, 2.0] but their
    product is 2.0, not 3.0; the chain built for 6.0 ends with the stage
    0.0, outside [0.5, 2.0]. *)
Theorem tempo_chain_misses_factor :
  speed_invalid 3 = false /\ ~ 3 == 1
  /\ filter_chain 3 = Some [2; 1]
  /\ Forall stage_ok (tempo_chain 3)
  /\ product (tempo_chain 3) == 2
  /\ ~ product (tempo_chain 3) == 3
  /\ speed_invalid 6 = false
  /\ tempo_chain 6 = [2; 2; 2; 0]
  /\ ~ Forall stage_ok (tempo_chain 6).
Proof.
  assert (E3 : tempo_chain 3 = [2; 1]) by (vm_compute; reflexivity).
  assert (E6 : tempo_chain 6 = [2; 2; 2; 0]) by (vm_compute; reflexivity).
  unfold filter_chain. rewrite E3, E6.
  repeat apply conj.
  - vm_compute. reflexivity.
  - discriminate.
  - reflexivity.
  - repeat constructor; discriminate.
  - reflexivity.
  - discriminate.
  - vm_compute. reflexivity.
  - reflexivity.
  - intros H. inversion_clear H as [| ? ? _ H1]. inversion_clear H1 as [| ? ? _ H2].
    inversion_clear H2 as [| ? ? _ H3]. inversion_clear H3 as [| ? ? [H4 _] _].
    apply H4. reflexivity.
Qed.

(** C3.  The chain built for 4.0 has three stages, [2.0, 2.0, 0.0], and
    their product is 0.0. *)
Theorem tempo_chain_of_four :
  speed_invalid 4 = false
  /\ filter_chain 4 = Some [2; 2; 0]
  /\ tempo_chain 4 <> [2; 2]
  /\ product (tempo_chain 4) == 0
  /\ ~ product (tempo_chain 4) == 4.
Proof.
  assert (E4 : tempo_chain 4 = [2; 2; 0]) by (vm_compute; reflexivity).
  unfold filter_chain. rewrite E4.
  repeat apply conj; try (vm_compute; reflexivity); discriminate.
Qed.

(** C4, as the code has it.  For every binary64 speed factor with
    0.5 < speed_factor <= 2.0 the check of line 90 passes; when the factor
    is not 1.0 the filter is the single stage [speed_factor], and when it is
    1.0 no filter is added. *)
Theorem single_stage_chain (speed_factor : Q) :
  Float64.is_float speed_factor = true ->
  1 # 2 < speed_factor <= 2 ->
  speed_invalid speed_factor = false
  /\ (~ speed_factor == 1 -> filter_chain speed_factor = Some [speed_factor])
  /\ (speed_factor == 1 -> filter_chain speed_factor = None).
Proof.
  intros F [L H]. repeat apply conj.
  - apply SpeedFacts.speed_valid_mid; [exact F | split; assumption].
  - intros N. unfold filter_chain.
    destruct (Qeq_bool speed_factor 1) eqn:E;
      [apply Qeq_bool_iff in E; contradiction |].
    cbn [negb]. unfold tempo_chain.
    rewrite SpeedFacts.compile_chain_mid by (split; lra). reflexivity.
  - intros E. unfold filter_chain.
    apply Qeq_bool_iff in E. rewrite E. reflexivity.
Qed.

Lemma single_stage_chain_witness :
  speed_invalid (3 # 2) = false
  /\ filter_chain (3 # 2) = Some [3 # 2].
Proof.
  destruct (single_stage_chain (3 # 2)) as (V & C & _).
  - vm_compute. reflexivity.
  - split; [reflexivity | discriminate].
  - split; [exact V | apply C; discriminate].
Defined.

(** At 0.5, a factor of the range of C4, the check of line 90 fails:
    [1 / 0.5 % 2] is 0. *)
Lemma half_speed_is_rejected :
  1 # 2 <= 1 # 2 <= 2 /\ ~ (1 # 2) == 1 /\ speed_invalid (1 # 2) = true.
Proof. repeat apply conj; try reflexivity; discriminate. Qed.

Section Runs.

Variable float : string -> option Q.
Variable ffprobe : string -> completed.
Variable ffmpeg : ffmpeg_cmd -> Z.
Variables (input_file output_dir : string) (chunk_duration : Z)
          (speed_factor : Q) (start_chunk : Z) (max_chunks : option Z)
          (audio_quality sample_rate : string).

Let r := process_audiobook float ffprobe ffmpeg input_file output_dir
           chunk_duration speed_factor start_chunk max_chunks
           audio_quality sample_rate.
Let g := get_duration float ffprobe input_file.

(** C5.  When the probe gives a positive duration, the chunk length is
    positive and [start_chunk] exceeds [total_chunks] (after the clamp by
    [max_chunks]), the plan is empty and the run prints its two summary
    lines and returns: no transform is run, no per-chunk error is
    printed, and neither abort message appears. *)
Theorem start_beyond_end_is_empty (total_duration : Q) :
  snd g = inr total_duration ->
  0 < total_duration -> (0 < chunk_duration)%Z ->
  (total_chunks total_duration chunk_duration start_chunk max_chunks
   < start_chunk)%Z ->
  chunk_plan total_duration chunk_duration start_chunk max_chunks = []
  /\ trace r
     = Mkdir output_dir :: trace g
       ++ [Print (Total_minutes (total_duration / 60));
           Print (Processing_chunks start_chunk
                    (total_chunks total_duration chunk_duration
                       start_chunk max_chunks))]
  /\ transforms (trace r) = []
  /\ chunk_errors (trace r) = []
  /\ ~ In Speed_too_small (printed (trace r))
  /\ ~ In (Cannot_determine input_file) (printed (trace r))
  /\ snd r = inr tt.
Proof.
  intros G T C S.
  assert (E : range (start_chunk - 1)
                (total_chunks total_duration chunk_duration start_chunk
                   max_chunks) = []) by (apply range_empty; lia).
  assert (R : r = (Mkdir output_dir :: trace g
       ++ [Print (Total_minutes (total_duration / 60));
           Print (Processing_chunks start_chunk
                    (total_chunks total_duration chunk_duration
                       start_chunk max_chunks))], inr tt)).
  { unfold r. rewrite RunFacts.process_unfold. fold g. rewrite G.
    destruct (Qeq_bool total_duration 0) eqn:Z;
      [apply Qeq_bool_iff in Z; lra |].
    destruct (Z.eqb_spec (chunk_seconds chunk_duration) 0) as [Z0 | _];
      [unfold chunk_seconds in Z0; lia |].
    cbv zeta. rewrite E. reflexivity. }
  assert (P : forall m, In m (printed (trace r)) ->
            m = Probe_duration (rstrip (stdout (ffprobe input_file)))
            \/ m = Probe_error (stderr (ffprobe input_file))
            \/ m = Total_minutes (total_duration / 60)
            \/ m = Processing_chunks start_chunk
                     (total_chunks total_duration chunk_duration
                        start_chunk max_chunks)).
  { intros m. rewrite R. unfold trace at 1. cbn [fst printed].
    rewrite RunFacts.printed_app. intros I. apply in_app_or in I.
    destruct I as [I | [<- | [<- | []]]]; auto.
    apply RunFacts.get_duration_printed in I. tauto. }
  repeat apply conj.
  - unfold chunk_plan. rewrite E. reflexivity.
  - rewrite R. reflexivity.
  - rewrite R. unfold trace at 1. cbn [fst transforms].
    rewrite RunFacts.transforms_app. unfold g.
    rewrite RunFacts.get_duration_transforms. reflexivity.
  - unfold chunk_errors.
    destruct (filter is_chunk_error (printed (trace r))) as [| m l] eqn:F;
      [reflexivity | exfalso].
    assert (I : In m (filter is_chunk_error (printed (trace r))))
      by (rewrite F; now left).
    apply filter_In in I. destruct I as [I B].
    destruct (P m I) as [-> | [-> | [-> | ->]]]; discriminate.
  - intros I. destruct (P _ I) as [? | [? | [? | ?]]]; discriminate.
  - intros I. destruct (P _ I) as [? | [? | [? | ?]]]; discriminate.
  - rewrite R. reflexivity.
Qed.

(** C6, as the code has it.  A duration of zero from the probe makes the
    run print that the duration cannot be determined and return without
    running a transform.  A speed factor rejected by line 90 never lets a
    transform run; the check sits in the chunk loop, so its message is
    printed, and the run left, when the plan has at least one chunk. *)
Theorem precondition_errors_abort :
  (forall total_duration, snd g = inr total_duration ->
     total_duration == 0 ->
     In (Cannot_determine input_file) (printed (trace r))
     /\ transforms (trace r) = [] /\ snd r = inr tt)
  /\ (speed_invalid speed_factor = true ->
      transforms (trace r) = []
      /\ forall total_duration, snd g = inr total_duration ->
           ~ total_duration == 0 -> (0 < chunk_duration)%Z ->
           chunk_plan total_duration chunk_duration start_chunk max_chunks
             <> [] ->
           In Speed_too_small (printed (trace r))
           /\ last (printed (trace r)) Speed_too_small = Speed_too_small
           /\ snd r = inr tt).
Proof.
  split.
  - intros T G Z. unfold r. rewrite RunFacts.process_unfold. fold g.
    rewrite G. apply Qeq_bool_iff in Z. rewrite Z.
    unfold trace. cbn [fst snd printed transforms].
    rewrite RunFacts.printed_app, RunFacts.transforms_app.
    fold (trace g). unfold g. rewrite RunFacts.get_duration_transforms.
    repeat apply conj; [| reflexivity | reflexivity].
    apply in_or_app. right. now left.
  - intros V. split.
    + unfold r. rewrite RunFacts.process_unfold. fold g.
      pose proof (RunFacts.get_duration_transforms float ffprobe input_file)
        as GT. fold g in GT. unfold trace in *.
      destruct (snd g) as [e | T]; [exact GT |].
      destruct (Qeq_bool T 0);
        [cbn [fst transforms]; rewrite RunFacts.transforms_app, GT;
         reflexivity |].
      destruct (chunk_seconds chunk_duration =? 0)%Z;
        [cbn [fst transforms]; rewrite RunFacts.transforms_app, GT;
         reflexivity |].
      cbv zeta. cbn [fst transforms]. rewrite RunFacts.transforms_app, GT.
      cbn [transforms app].
      pose proof (RunFacts.chunk_loop_invalid ffmpeg input_file output_dir
                    chunk_duration speed_factor audio_quality sample_rate T
                    (total_chunks T chunk_duration start_chunk max_chunks)
                    (range (start_chunk - 1)
                       (total_chunks T chunk_duration start_chunk max_chunks))
                    V) as L.
      unfold trace in L. rewrite L. now destruct (range _ _).
    + intros T G N C P. unfold r. rewrite RunFacts.process_unfold. fold g.
      rewrite G.
      destruct (Qeq_bool T 0) eqn:Z;
        [apply Qeq_bool_iff in Z; contradiction |].
      destruct (Z.eqb_spec (chunk_seconds chunk_duration) 0) as [Z0 | _];
        [unfold chunk_seconds in Z0; lia |].
      cbv zeta.
      pose proof (RunFacts.chunk_loop_invalid ffmpeg input_file output_dir
                    chunk_duration speed_factor audio_quality sample_rate T
                    (total_chunks T chunk_duration start_chunk max_chunks)
                    (range (start_chunk - 1)
                       (total_chunks T chunk_duration start_chunk max_chunks))
                    V) as L.
      pose proof (RunFacts.chunk_loop_returns ffmpeg input_file output_dir
                    chunk_duration speed_factor audio_quality sample_rate T
                    (total_chunks T chunk_duration start_chunk max_chunks)
                    (range (start_chunk - 1)
                       (total_chunks T chunk_duration start_chunk max_chunks))
                    (or_introl V))
        as Rt.
      unfold trace in *. cbn [fst snd]. rewrite L, Rt.
      unfold chunk_plan in P.
      destruct (range _ _); [now elim P |].
      cbn [printed]. rewrite RunFacts.printed_app. cbn [printed].
      repeat apply conj; [| | reflexivity].
      * apply in_or_app. right. right. right. now left.
      * change (?a :: ?b :: [?c]) with ([a; b] ++ [c]).
        rewrite app_assoc. apply last_last.
Qed.

(** C10.  When the probe's standard output, stripped, is not empty and
    [float] rejects it, [get_duration] raises [ValueError] instead of
    returning zero, and so does the run: it does not print that the
    duration cannot be determined and runs no transform. *)
Theorem unparsable_duration_raises :
  rstrip (stdout (ffprobe input_file)) <> ""%string ->
  float (rstrip (stdout (ffprobe input_file))) = None ->
  raises g ValueError
  /\ raises r ValueError
  /\ ~ In (Cannot_determine input_file) (printed (trace r))
  /\ transforms (trace r) = [].
Proof.
  intros N F.
  assert (G : snd g = inl ValueError).
  { unfold g, get_duration. rewrite RunFacts.bind_emit. cbn [snd].
    destruct (String.eqb_spec (rstrip (stdout (ffprobe input_file))) "")
      as [E | _]; [contradiction |].
    cbn [negb]. rewrite RunFacts.bind_emit. cbn [snd]. rewrite F.
    reflexivity. }
  assert (R : r = (Mkdir output_dir :: trace g, inl ValueError)).
  { unfold r. rewrite RunFacts.process_unfold. fold g. rewrite G.
    reflexivity. }
  repeat apply conj.
  - exact G.
  - unfold raises. rewrite R. reflexivity.
  - rewrite R. unfold trace at 1. cbn [fst printed]. intros I.
    apply RunFacts.get_duration_printed in I.
    destruct I; discriminate.
  - rewrite R. unfold trace at 1. cbn [fst transforms].
    apply RunFacts.get_duration_transforms.
Qed.

End Runs.

(** A file of 1500 seconds cut every 10 minutes has three chunks; asking
    for chunk 4 onwards runs nothing. *)
Lemma start_beyond_end_is_empty_witness :
  transforms
    (trace (process_audiobook decimal_float (probe_prints "1500.000000")
              ffmpeg_succeeds "book.m4b" "out" 10 (3 # 2) 4 None
              "192" "44100")) = [].
Proof.
  refine (proj1 (proj2 (proj2
    (start_beyond_end_is_empty decimal_float (probe_prints "1500.000000")
       ffmpeg_succeeds "book.m4b" "out" 10 (3 # 2) 4 None "192" "44100"
       (1500000000 # 1000000) _ _ _ _)))); reflexivity.
Defined.

(** The binary64 value of 0.1 as speed factor on a file of 1500 seconds:
    its inverse rounds to 10.0, the message is printed and nothing is
    transformed. *)
Lemma precondition_errors_abort_witness :
  transforms
    (trace (process_audiobook decimal_float (probe_prints "1500.000000")
              ffmpeg_succeeds "book.m4b" "out" 10
              (3602879701896397 # 36028797018963968) 1 None "192" "44100"))
  = []
  /\ In Speed_too_small
       (printed
          (trace (process_audiobook decimal_float (probe_prints "1500.000000")
                    ffmpeg_succeeds "book.m4b" "out" 10
                    (3602879701896397 # 36028797018963968) 1 None
                    "192" "44100"))).
Proof.
  destruct (precondition_errors_abort decimal_float
              (probe_prints "1500.000000") ffmpeg_succeeds "book.m4b" "out"
              10 (3602879701896397 # 36028797018963968) 1 None "192" "44100")
    as [_ H].
  assert (V : speed_invalid (3602879701896397 # 36028797018963968) = true)
    by (vm_compute; reflexivity).
  destruct (H V) as [T P]. split; [exact T |].
  refine (proj1 (P (1500000000 # 1000000) eq_refl _ eq_refl _));
    discriminate.
Defined.

(** The same rejected speed with a start chunk beyond the end: the run
    returns without the message of line 91. *)
Lemma invalid_speed_goes_unreported :
  speed_invalid 0 = true
  /\ ~ In Speed_too_small
        (printed
           (trace (process_audiobook decimal_float
                     (probe_prints "1500.000000") ffmpeg_succeeds
                     "book.m4b" "out" 10 0 4 None "192" "44100"))).
Proof.
  split; [reflexivity |]. vm_compute.
  intros [H | [H | [H | []]]]; discriminate.
Qed.

(** A probe that prints "N/A" makes the run raise. *)
Lemma unparsable_duration_raises_witness :
  raises
    (process_audiobook decimal_float (probe_prints "N/A") ffmpeg_succeeds
       "book.m4b" "out" 10 (3 # 2) 1 None "192" "44100") ValueError.
Proof.
  refine (proj1 (proj2
    (unparsable_duration_raises decimal_float (probe_prints "N/A")
       ffmpeg_succeeds "book.m4b" "out" 10 (3 # 2) 1 None "192" "44100"
       _ _))); [discriminate | reflexivity].
Defined.

End AudiobookSpec.

(** ** Strings and paths *)

Module PathFacts.

Import Gather.
Local Open Scope string_scope.

Lemma split_nonempty (sep : ascii) (s : string) : split sep s <> [].
Proof.
  destruct s as [| c r]; cbn; [discriminate |].
  destruct (Ascii.eqb c sep); [discriminate |].
  destruct (split sep r); discriminate.
Qed.

(** Splitting at a separator splits both sides. *)
Lemma split_app (sep : ascii) (a b : string) :
  split sep (a ++ String sep b) = (split sep a ++ split sep b)%list.
Proof.
  induction a as [| c a IH]; cbn.
  - now rewrite Ascii.eqb_refl.
  - destruct (Ascii.eqb c sep); [now rewrite IH |].
    rewrite IH. pose proof (split_nonempty sep a).
    destruct (split sep a); [contradiction | reflexivity].
Qed.

(** A string without the separator is a single component. *)
Lemma split_single (sep : ascii) (s : string) :
  rfind sep s = None -> split sep s = [s].
Proof.
  induction s as [| c r IH]; cbn; [reflexivity |].
  destruct (rfind sep r); [discriminate |].
  destruct (Ascii.eqb c sep); [discriminate |].
  intros _. now rewrite IH.
Qed.

Lemma rfind_app (c : ascii) (a b : string) (i : nat) :
  rfind c b = Some i -> rfind c (a ++ b) = Some (String.length a + i)%nat.
Proof.
  intros H. induction a as [| d a IH]; cbn; [exact H |]. now rewrite IH.
Qed.

Lemma rfind_app_none (c : ascii) (a b : string) :
  rfind c a = None -> rfind c b = None -> rfind c (a ++ b) = None.
Proof.
  intros Ha Hb. induction a as [| d a IH]; cbn in *; [exact Hb |].
  destruct (rfind c a); [discriminate |].
  destruct (Ascii.eqb d c); [discriminate |]. now rewrite IH.
Qed.

Lemma drop_app (a b : string) : drop (String.length a) (a ++ b) = b.
Proof. induction a as [| c a IH]; cbn; [now destruct b | exact IH]. Qed.

Lemma length_app (a b : string) :
  String.length (a ++ b) = (String.length a + String.length b)%nat.
Proof. induction a as [| c a IH]; cbn; [reflexivity | now rewrite IH]. Qed.

Lemma drop_split (i : nat) (s : string) :
  exists pre, s = pre ++ drop i s.
Proof.
  revert s. induction i as [| i IH]; intros s; [now exists "" |].
  destruct s as [| c r]; [now exists "" |].
  destruct (IH r) as [pre E]. exists (String c pre). cbn. now rewrite <- E.
Qed.

Lemma endswith_split (s suffix : string) :
  endswith s suffix = true -> exists pre, s = pre ++ suffix.
Proof.
  unfold endswith. intros H. apply andb_true_iff in H. destruct H as [_ H].
  apply String.eqb_eq in H.
  destruct (drop_split (String.length s - String.length suffix) s) as [pre E].
  exists pre. now rewrite H in E.
Qed.

Lemma append_assoc (a b c : string) : (a ++ b) ++ c = a ++ b ++ c.
Proof. induction a as [| d a IH]; cbn; [reflexivity | now rewrite IH]. Qed.

(** The name of a path that ends with a plain file name is that name. *)
Lemma name_of_file (parent file : string) :
  parent = "" \/ endswith parent "/" = true ->
  rfind "/" file = None -> file <> "" -> file <> "." ->
  name (parent ++ file) = file.
Proof.
  intros P S N D. unfold name.
  assert (K : negb ((file =? "") || (file =? ".")) = true).
  { destruct (String.eqb_spec file ""); [contradiction |].
    destruct (String.eqb_spec file "."); [contradiction | reflexivity]. }
  destruct P as [-> | P].
  - cbn [append]. rewrite split_single by exact S. cbn [filter].
    rewrite K. reflexivity.
  - apply endswith_split in P. destruct P as [pre ->].
    rewrite append_assoc. cbn [append]. rewrite split_app.
    rewrite (split_single _ file S).
    rewrite filter_app. cbn [filter]. rewrite K. apply last_last.
Qed.

(** The suffix of [stem.ext]. *)
Lemma suffix_of_file (parent stem ext : string) :
  parent = "" \/ endswith parent "/" = true ->
  stem <> "" -> rfind "/" stem = None ->
  ext <> "" -> rfind "/" ext = None -> rfind "." ext = None ->
  suffix (parent ++ stem ++ "." ++ ext) = "." ++ ext.
Proof.
  intros P N Ss E Se De. unfold suffix.
  assert (L : (0 < String.length stem)%nat)
    by (destruct stem; [contradiction | cbn; lia]).
  assert (Le : (0 < String.length ext)%nat)
    by (destruct ext; [contradiction | cbn; lia]).
  rewrite name_of_file; trivial.
  - assert (R : rfind "." ("." ++ ext) = Some 0%nat) by (cbn; now rewrite De).
    rewrite (rfind_app _ stem _ _ R). rewrite Nat.add_0_r.
    rewrite length_app. cbn [append String.length].
    replace ((0 <? String.length stem)%nat) with true
      by (symmetry; apply Nat.ltb_lt; lia).
    replace ((String.length stem <? String.length stem + S (String.length ext) - 1)%nat)
      with true by (symmetry; apply Nat.ltb_lt; lia).
    cbn [andb]. apply drop_app.
  - apply rfind_app_none; [exact Ss |]. cbn. rewrite Se. reflexivity.
  - destruct stem; [contradiction | discriminate].
  - destruct stem as [| c [| d r]]; [contradiction | | discriminate].
    cbn. destruct ext; [contradiction | discriminate].
Qed.

Lemma mem_In (x : string) (l : list string) : mem x l = true <-> In x l.
Proof.
  unfold mem. rewrite existsb_exists. split.
  - intros (y & I & E). apply String.eqb_eq in E. now subst.
  - intros I. exists x. split; [exact I | apply String.eqb_refl].
Qed.

(** Lower-casing leaves dots and slashes alone, so an extension whose
    lower-case form has none has none itself. *)
Lemma rfind_lower (c : ascii) (s : string) :
  lower_char c = c -> (forall d, lower_char d = c -> d = c) ->
  rfind c (lower s) = None -> rfind c s = None.
Proof.
  intros F I. induction s as [| d r IH]; cbn; [reflexivity |].
  destruct (rfind c (lower r)); [discriminate |].
  destruct (Ascii.eqb_spec (lower_char d) c) as [E | E]; [discriminate |].
  intros _. rewrite IH by reflexivity.
  destruct (Ascii.eqb_spec d c) as [-> | _]; [contradiction | reflexivity].
Qed.

Lemma lower_char_dot (d : ascii) : lower_char d = "."%char -> d = "."%char.
Proof.
  destruct d as [[] [] [] [] [] [] [] []]; cbv; intros H;
    try reflexivity; discriminate.
Qed.

Lemma lower_char_slash (d : ascii) : lower_char d = "/"%char -> d = "/"%char.
Proof.
  destruct d as [[] [] [] [] [] [] [] []]; cbv; intros H;
    try reflexivity; discriminate.
Qed.

Lemma lower_app (a b : string) : lower (a ++ b) = lower a ++ lower b.
Proof. induction a as [| c a IH]; cbn; [reflexivity | now rewrite IH]. Qed.

End PathFacts.

(** ** The source concatenator: the claims *)

Module GatherSpec.

Import Gather PathFacts.
Local Open Scope string_scope.

Lemma insert_sorted_order (x : string) (l : list string) :
  in_order l -> in_order (insert_sorted x l).
Proof.
  induction l as [| y r IH]; intros H.
  - intros [| i] a b Ha Hb; [discriminate | destruct i; discriminate].
  - cbn. destruct (String.leb x y) eqn:E.
    + intros [| i] a b Ha Hb.
      * cbn in Ha, Hb. congruence.
      * exact (H i a b Ha Hb).
    + assert (Hr : in_order r) by (intros i a b; apply (H (S i))).
      specialize (IH Hr).
      intros [| i] a b Ha Hb; [| exact (IH i a b Ha Hb)].
      cbn in Ha. injection Ha as <-. cbn in Hb.
      destruct r as [| z r']; cbn in Hb.
      * injection Hb as <-.
        destruct (String.leb_total x y) as [T | T]; congruence.
      * destruct (String.leb x z).
        -- injection Hb as <-.
           destruct (String.leb_total x y) as [T | T]; congruence.
        -- injection Hb as <-. exact (H 0%nat y z eq_refl eq_refl).
Qed.

(** [collect_files] returns its paths in ascending order. *)
Lemma collect_files_in_order guess_type walk exts :
  in_order (collect_files guess_type walk exts).
Proof.
  unfold collect_files, sorted.
  induction (filter _ _) as [| x l IH]; cbn.
  - intros [| i] a b Ha; discriminate.
  - now apply insert_sorted_order.
Qed.

(** When every file of the list can be decoded, the output is one block
    per file that was read, in the order of the list. *)
Lemma combined_output_of_decodable_files fs (files : list string) :
  (forall f, In f files -> decodable fs f) ->
  fst (create_combined_file fs files) = expected_output fs files.
Proof.
  induction files as [| f rest IH]; intros H; [reflexivity |].
  cbn [create_combined_file expected_output fst].
  rewrite IH by (intros x I; apply H; now right).
  destruct (H f (or_introl eq_refl)) as [U R].
  unfold combine_one, read_ok, block.
  destruct (fs f) as [e | | e | text]; cbn [fst].
  - reflexivity.
  - contradiction.
  - now elim (R e).
  - now rewrite !append_assoc.
Qed.

(** C7.  A list of two files whose first cannot be decoded: the header and
    the opening fence of the first file are in the output, without content
    and footer, before the block of the second; the output is not the
    sequence of the blocks of the files that were read. *)
Theorem undecodable_file_leaves_header :
  let fs := fun p => if p =? "a.txt" then Undecodable else Content "hi" in
  create_combined_file fs ["a.txt"; "b.txt"]
  = (header "a.txt" ++ fence_open ++ block "b.txt" "hi",
     [Warning_skipping "a.txt"])
  /\ expected_output fs ["a.txt"; "b.txt"] = block "b.txt" "hi"
  /\ fst (create_combined_file fs ["a.txt"; "b.txt"])
     <> expected_output fs ["a.txt"; "b.txt"].
Proof. repeat apply conj; try reflexivity. discriminate. Qed.

(** C8, as the code has it.  The classifier answers true exactly when the
    lower-cased [pathlib] suffix of the path is in the allow-list or the
    content type guessed from the path starts with "text/".  It answers
    true for every path whose last component is a non-empty stem followed
    by a dot and py, md or json in any letter case, and false when the
    suffix is not in the allow-list and the guess is not a text type.  The
    answer depends on the path and on the guess only. *)
Theorem classifier_decides_by_path (guess_type : string -> option string)
    (filepath : string) :
  (is_text_file guess_type filepath text_extensions = true <->
     In (lower (suffix filepath)) text_extensions
     \/ exists mime_type,
          guess_type filepath = Some mime_type
          /\ startswith mime_type "text/" = true)
  /\ (forall parent stem ext,
        filepath = parent ++ stem ++ "." ++ ext ->
        parent = "" \/ endswith parent "/" = true ->
        stem <> "" -> rfind "/" stem = None ->
        In (lower ext) ["py"; "md"; "json"] ->
        is_text_file guess_type filepath text_extensions = true)
  /\ (~ In (lower (suffix filepath)) text_extensions ->
      (forall mime_type, guess_type filepath = Some mime_type ->
         startswith mime_type "text/" = false) ->
      is_text_file guess_type filepath text_extensions = false).
Proof.
  assert (Iff : is_text_file guess_type filepath text_extensions = true <->
     In (lower (suffix filepath)) text_extensions
     \/ exists mime_type,
          guess_type filepath = Some mime_type
          /\ startswith mime_type "text/" = true).
  { unfold is_text_file.
    destruct (mem (lower (suffix filepath)) text_extensions) eqn:M.
    - apply mem_In in M. tauto.
    - assert (N : ~ In (lower (suffix filepath)) text_extensions).
      { intros I. apply mem_In in I. congruence. }
      destruct (guess_type filepath) as [m |].
      + split.
        * intros H. right. now exists m.
        * intros [I | (m' & E & H)]; [contradiction | congruence].
      + split; [discriminate |].
        intros [I | (m' & E & _)]; [contradiction | discriminate]. }
  repeat apply conj.
  - apply Iff.
  - apply Iff.
  - intros parent stem ext -> P N S I. apply Iff. left.
    assert (E : ext <> "") by (intros ->; cbn in I; intuition discriminate).
    assert (Se : rfind "/" ext = None).
    { apply rfind_lower;
        [reflexivity | apply lower_char_slash |].
      cbn in I. destruct I as [<- | [<- | [<- | []]]]; reflexivity. }
    assert (De : rfind "." ext = None).
    { apply rfind_lower;
        [reflexivity | apply lower_char_dot |].
      cbn in I. destruct I as [<- | [<- | [<- | []]]]; reflexivity. }
    rewrite suffix_of_file by assumption.
    rewrite lower_app. change (lower ".") with ".".
    cbn in I. destruct I as [<- | [<- | [<- | []]]]; cbn; tauto.
  - intros N G.
    apply not_true_is_false. intros T.
    apply Iff in T. destruct T as [I | (m & E & H)]; [contradiction |].
    rewrite (G m E) in H. discriminate.
Qed.

Lemma classifier_decides_by_path_witness :
  is_text_file mimetypes_guess_type "src/Main.PY" text_extensions = true.
Proof.
  refine (proj1 (proj2
    (classifier_decides_by_path mimetypes_guess_type "src/Main.PY"))
    "src/" "Main" "PY" eq_refl _ _ eq_refl _).
  - right. reflexivity.
  - discriminate.
  - left. reflexivity.
Defined.

(** A file named [.py] ends in .py and is not classified as text: such a
    name has no suffix, and no extension for the content-type guess. *)
Lemma hidden_py_is_not_text :
  endswith "./.py" ".py" = true
  /\ is_text_file mimetypes_guess_type "./.py" text_extensions = false.
Proof. split; reflexivity. Qed.

End GatherSpec.

(** ** More on the chunk plan: windows and batches *)

Module WindowFacts.

Import Py PyFacts Audiobook PlanFacts.
Local Open Scope Q_scope.

Lemma range_cons (a b : Z) :
  (a < b)%Z -> range a b = a :: range (a + 1) b.
Proof.
  intros H. unfold range.
  replace (Z.to_nat (b - a)) with (S (Z.to_nat (b - (a + 1)))) by lia.
  cbn [seq map]. f_equal; [lia |].
  rewrite <- seq_shift, map_map. apply map_ext. intros k. lia.
Qed.

(** A range splits at any point between its ends. *)
Lemma range_app (a b c : Z) :
  (a <= b <= c)%Z -> range a c = range a b ++ range b c.
Proof.
  intros [H1 H2].
  remember (Z.to_nat (b - a)) as k eqn:K. revert a H1 K.
  induction k as [| k IH]; intros a H1 K.
  - assert (a = b) by lia. subst. now rewrite (range_empty b b) by lia.
  - rewrite (range_cons a c) by lia. rewrite (range_cons a b) by lia.
    rewrite <- app_comm_cons. f_equal. apply IH; lia.
Qed.

Lemma firstn_range (a b : Z) (k : nat) :
  firstn k (range a b) = range a (Z.min b (a + Z.of_nat k)).
Proof.
  destruct (Z_lt_le_dec b (a + Z.of_nat k)) as [L | L].
  - rewrite Z.min_l by lia. apply firstn_all2. rewrite range_length. lia.
  - rewrite Z.min_r by lia.
    rewrite (range_app a (a + Z.of_nat k) b) by lia.
    rewrite firstn_app, range_length.
    replace (k - Z.to_nat (a + Z.of_nat k - a))%nat with 0%nat by lia.
    rewrite firstn_O, app_nil_r. apply firstn_all2.
    rewrite range_length. lia.
Qed.

Lemma skipn_range (a b : Z) (k : nat) :
  skipn k (range a b) = range (a + Z.of_nat k) b.
Proof.
  destruct (Z_lt_le_dec b (a + Z.of_nat k)) as [L | L].
  - rewrite (range_empty (a + Z.of_nat k) b) by lia.
    apply skipn_all2. rewrite range_length. lia.
  - destruct (Z_lt_le_dec b a) as [L' | L'].
    + rewrite !range_empty by lia. now destruct k.
    + rewrite (range_app a (a + Z.of_nat k) b) by lia.
      rewrite skipn_app, skipn_all2 by (rewrite range_length; lia).
      rewrite range_length.
      replace (k - Z.to_nat (a + Z.of_nat k - a))%nat with 0%nat by lia.
      reflexivity.
Qed.

(** The floor of a number is the integer just below it. *)
Lemma floor_unique (x : Q) (k : Z) :
  inject_Z k <= x < inject_Z k + 1 -> Qfloor x = k.
Proof.
  intros [L H].
  pose proof (Qfloor_le x) as Lo. pose proof (Qlt_floor x) as Hi.
  rewrite inject_Z_plus in Hi. change (inject_Z 1) with 1 in Hi.
  assert (A : inject_Z k < inject_Z (Qfloor x + 1))
    by (rewrite inject_Z_plus; change (inject_Z 1) with 1; lra).
  assert (B : inject_Z (Qfloor x) < inject_Z (k + 1))
    by (rewrite inject_Z_plus; change (inject_Z 1) with 1; lra).
  rewrite <- Zlt_Qlt in A, B. lia.
Qed.



End WindowFacts.

(** ** The audiobook chunker: further properties *)

Module AudiobookExtra.

Import Py PyFacts Audiobook PlanFacts WindowFacts.
Local Open Scope Q_scope.

Section Windows.

Variables (total_duration : Q) (chunk_duration : Z).

Let full := chunk_plan total_duration chunk_duration 1 None.
Let n := ceil (total_duration / inject_Z (chunk_seconds chunk_duration)).

(** X1.  For a start chunk of at least 1, the plan of a window is a slice
    of the plan of the whole file: the first [start_chunk - 1] records are
    dropped and, with [max_chunks], at most that many are kept.  The
    records themselves, with their numbers, do not depend on the window. *)
Theorem window_is_slice_of_full_plan (start_chunk : Z) (max_chunks : option Z) :
  (1 <= start_chunk)%Z ->
  chunk_plan total_duration chunk_duration start_chunk max_chunks
  = match max_chunks with
    | None => skipn (Z.to_nat (start_chunk - 1)) full
    | Some m => firstn (Z.to_nat m) (skipn (Z.to_nat (start_chunk - 1)) full)
    end.
Proof.
  intros H. unfold full, chunk_plan, total_chunks. fold n.
  change (1 - 1)%Z with 0%Z.
  destruct max_chunks as [m |].
  - rewrite skipn_map, firstn_map, skipn_range, firstn_range. f_equal.
    replace (0 + Z.of_nat (Z.to_nat (start_chunk - 1)))%Z
      with (start_chunk - 1)%Z by lia.
    destruct (Z_lt_le_dec m 0) as [L | L].
    + rewrite !range_empty by lia. reflexivity.
    + f_equal. lia.
  - rewrite skipn_map, skipn_range. do 2 f_equal. lia.
Qed.

(** X2.  A run limited to [m] chunks followed by a run that starts [m]
    chunks later plans the same records, in the same order, as one run
    over both: batches compose. *)
Theorem batches_compose (start_chunk m : Z) (rest : option Z) :
  (0 <= m)%Z ->
  match rest with Some m' => (0 <= m')%Z | None => True end ->
  chunk_plan total_duration chunk_duration start_chunk (Some m)
    ++ chunk_plan total_duration chunk_duration (start_chunk + m) rest
  = chunk_plan total_duration chunk_duration start_chunk
      (option_map (Z.add m) rest).
Proof.
  intros Hm Hr. unfold chunk_plan, total_chunks. fold n.
  rewrite <- map_app. f_equal.
  destruct rest as [m' |]; cbn [option_map].
  - destruct (Z_lt_le_dec n (start_chunk + m - 1)) as [L | L].
    + rewrite (range_empty (start_chunk + m - 1)) by lia.
      rewrite app_nil_r. f_equal. lia.
    + replace (Z.min n (start_chunk + m - 1)) with (start_chunk + m - 1)%Z
        by lia.
      replace (Z.min n (start_chunk + m + m' - 1))
        with (Z.min n (start_chunk + (m + m') - 1)) by (f_equal; lia).
      symmetry. apply range_app. lia.
  - destruct (Z_lt_le_dec n (start_chunk + m - 1)) as [L | L].
    + rewrite (range_empty (start_chunk + m - 1)) by lia.
      rewrite app_nil_r. f_equal. lia.
    + replace (Z.min n (start_chunk + m - 1)) with (start_chunk + m - 1)%Z
        by lia.
      destruct (Z_lt_le_dec n (start_chunk - 1)) as [L' | L'].
      * lia.
      * symmetry. apply range_app. lia.
Qed.

(** X3.  For a positive duration, a positive chunk length and a start chunk
    of at least 1, every record of any window is numbered between
    [start_chunk] and the number of chunks of the file (and below
    [start_chunk + max_chunks]), starts at [(index - 1) * chunk_seconds],
    at or after 0 and before the end of the file, and ends within it. *)
Theorem planned_chunk_inside_file (start_chunk : Z) (max_chunks : option Z)
    (c : chunk) :
  0 < total_duration -> (0 < chunk_duration)%Z -> (1 <= start_chunk)%Z ->
  In c (chunk_plan total_duration chunk_duration start_chunk max_chunks) ->
  (start_chunk <= index c <= n)%Z
  /\ match max_chunks with
     | Some m => (index c < start_chunk + m)%Z
     | None => True
     end
  /\ start_time c = ((index c - 1) * chunk_seconds chunk_duration)%Z
  /\ (0 <= start_time c)%Z
  /\ inject_Z (start_time c) < total_duration
  /\ inject_Z (start_time c) + duration c <= total_duration.
Proof.
  intros HT Hc Hs H. apply plan_In in H. destruct H as (i & -> & [L U]).
  pose proof (total_chunks_le total_duration chunk_duration start_chunk
                max_chunks) as B. fold n in B.
  cbn [plan_chunk index start_time]. repeat apply conj.
  - lia.
  - lia.
  - unfold total_chunks in U. destruct max_chunks; [lia | exact I].
  - f_equal. lia.
  - unfold chunk_seconds. nia.
  - apply start_before_end; trivial. fold n. lia.
  - apply (end_within total_duration chunk_duration i).
Qed.

End Windows.

Lemma window_is_slice_of_full_plan_witness :
  chunk_plan 1500 10 2 (Some 1%Z) = [mk_chunk 2 600 600].
Proof.
  rewrite (window_is_slice_of_full_plan 1500 10 2 (Some 1%Z)); [| discriminate].
  reflexivity.
Defined.

Lemma batches_compose_witness :
  chunk_plan 1500 10 1 (Some 2%Z) ++ chunk_plan 1500 10 3 (Some 5%Z)
  = chunk_plan 1500 10 1 (Some 7%Z).
Proof.
  apply (batches_compose 1500 10 1 2 (Some 5%Z)); discriminate.
Defined.

Lemma planned_chunk_inside_file_witness :
  inject_Z 1200 + (601 # 2) <= 3001 # 2.
Proof.
  refine (proj2 (proj2 (proj2 (proj2 (proj2
    (planned_chunk_inside_file (3001 # 2) 10 2 (Some 5%Z)
       (mk_chunk 3 1200 (601 # 2)) _ _ _ _)))))).
  - reflexivity.
  - reflexivity.
  - discriminate.
  - right. left. reflexivity.
Defined.

(** X4.  The check of line 90 refuses exactly the factors that are not
    positive and the factors whose inverse, rounded to binary64, is an even
    integer; among them every factor from [2^-1023] to [2^-53]. *)
Theorem rejected_speeds (speed_factor : Q) :
  (speed_invalid speed_factor = true <->
     speed_factor <= 0
     \/ exists (v : Q) (k : Z),
          Float64.div 1 speed_factor = Float64.Finite v
          /\ v == inject_Z (2 * k))
  /\ (Float64.pow2 (-1023) <= speed_factor <= Float64.pow2 (-53) ->
      speed_invalid speed_factor = true).
Proof.
  split; [| apply SpeedFacts.tiny_is_rejected].
  destruct (Qlt_le_dec 0 speed_factor) as [P | N].
  - rewrite (SpeedFacts.rejected_iff speed_factor P). split.
    + intros H. now right.
    + intros [H | H]; [lra | exact H].
  - split; [now left |]. intros _. unfold speed_invalid.
    apply orb_true_iff. left. now apply Qle_bool_iff.
Qed.

(** The binary64 value of 0.1 is refused: its inverse rounds to 10. *)
Lemma rejected_speeds_witness :
  speed_invalid (3602879701896397 # 36028797018963968) = true.
Proof.
  apply (proj2 (proj1
    (rejected_speeds (3602879701896397 # 36028797018963968)))).
  right.
  exists (match Float64.div 1 (3602879701896397 # 36028797018963968) with
          | Float64.Finite v => v
          | _ => 0
          end), 5%Z.
  split; vm_compute; reflexivity.
Defined.









End AudiobookExtra.

(** ** More on runs of the chunker *)

Module RunMore.

Import Py PyFacts Audiobook PlanFacts RunFacts Text.
Local Open Scope Q_scope.

Lemma rstrip_all_space (w : string) : all_space w = true -> rstrip w = ""%string.
Proof.
  induction w as [| c r IH]; [reflexivity |]. cbn.
  intros H. apply andb_true_iff in H. destruct H as [C R].
  rewrite IH by exact R. now rewrite C.
Qed.

(** Trailing white space does not change what [rstrip] returns. *)
Lemma rstrip_app_space (s w : string) :
  all_space w = true -> rstrip (s ++ w) = rstrip s.
Proof.
  intros H. induction s as [| c r IH]; cbn.
  - now apply rstrip_all_space.
  - now rewrite IH.
Qed.

Lemma chunk_errors_app (a b : list event) :
  chunk_errors (a ++ b) = chunk_errors a ++ chunk_errors b.
Proof. unfold chunk_errors. now rewrite printed_app, filter_app. Qed.

Lemma get_duration_no_chunk_errors float ffprobe (input_file : string) :
  chunk_errors (trace (get_duration float ffprobe input_file)) = [].
Proof.
  unfold chunk_errors.
  destruct (filter is_chunk_error _) as [| m l] eqn:F; [reflexivity |].
  assert (I : In m (filter is_chunk_error
                      (printed (trace (get_duration float ffprobe input_file)))))
    by (rewrite F; now left).
  apply filter_In in I. destruct I as [I B].
  apply get_duration_printed in I. destruct I as [-> | ->]; discriminate.
Qed.

Lemma filter_map_swap {A B} (f : A -> B) (p : B -> bool) (l : list A) :
  filter p (map f l) = map f (filter (fun x => p (f x)) l).
Proof.
  induction l as [| x l IH]; [reflexivity |]. cbn.
  destruct (p (f x)); cbn; now rewrite IH.
Qed.

Lemma NoDup_map_on {A B} (f : A -> B) (l : list A) :
  (forall x y, In x l -> In y l -> f x = f y -> x = y) ->
  NoDup l -> NoDup (map f l).
Proof.
  intros Inj N. induction N as [| x l Nx N IH]; [constructor |].
  cbn. constructor.
  - intros I. apply in_map_iff in I. destruct I as (y & E & Iy).
    apply Nx. rewrite (Inj x y); [exact Iy | now left | now right | congruence].
  - apply IH. intros a b Ia Ib. apply Inj; now right.
Qed.

Lemma range_NoDup (a b : Z) : NoDup (range a b).
Proof.
  unfold range. apply NoDup_map_on; [| apply seq_NoDup].
  intros x y _ _ E. lia.
Qed.

End RunMore.

(** ** Output file names *)

Module NamingFacts.

Import Gather PathFacts Naming.
Local Open Scope string_scope.

Lemma append_cancel_l (s a b : string) : s ++ a = s ++ b -> a = b.
Proof. induction s as [| c s IH]; cbn; [auto | intros [= E]; auto]. Qed.

Lemma append_cancel_r (a b c : string) : a ++ c = b ++ c -> a = b.
Proof.
  revert b. induction a as [| x a IH]; intros [| y b] E; cbn in E.
  - reflexivity.
  - apply (f_equal String.length) in E. cbn in E. rewrite length_app in E. lia.
  - apply (f_equal String.length) in E. cbn in E. rewrite length_app in E. lia.
  - injection E as -> E. f_equal. now apply IH.
Qed.

Lemma digits_value_zeros (k : nat) (s : string) :
  digits_value (zeros k ++ s) = digits_value s.
Proof.
  induction k as [| k IH]; [reflexivity |].
  rewrite <- IH. unfold digits_value.
  cbn [zeros append DecimalString.NilEmpty.uint_of_string].
  now destruct (DecimalString.NilEmpty.uint_of_string (zeros k ++ s)).
Qed.

(** Reading the digits of a number gives the number back, with or without
    zero padding. *)
Lemma digits_value_decimal (n : N) : digits_value (decimal n) = Some n.
Proof.
  unfold digits_value, decimal.
  rewrite DecimalString.NilEmpty.usu. cbn. f_equal.
  apply DecimalN.Unsigned.of_to.
Qed.

Lemma digits_value_pad (w : nat) (n : N) :
  digits_value (zero_pad w (decimal n)) = Some n.
Proof. unfold zero_pad. now rewrite digits_value_zeros, digits_value_decimal. Qed.

Lemma digits_value_minus (s : string) : digits_value (String "-" s) = None.
Proof.
  unfold digits_value. cbn.
  now destruct (DecimalString.NilEmpty.uint_of_string s).
Qed.

Lemma format_03_inj (a b : Z) : format_03 a = format_03 b -> a = b.
Proof.
  unfold format_03.
  destruct (Z.ltb_spec a 0) as [A | A], (Z.ltb_spec b 0) as [B | B]; intros E.
  - injection E as E. apply (f_equal digits_value) in E.
    rewrite !digits_value_pad in E. injection E as E. lia.
  - apply (f_equal digits_value) in E.
    rewrite digits_value_minus, digits_value_pad in E. discriminate.
  - apply (f_equal digits_value) in E.
    rewrite digits_value_minus, digits_value_pad in E. discriminate.
  - apply (f_equal digits_value) in E.
    rewrite !digits_value_pad in E. injection E as E. lia.
Qed.

Lemma length_zeros (k : nat) : String.length (zeros k) = k.
Proof. induction k; cbn; congruence. Qed.

Lemma length_zero_pad (w : nat) (s : string) :
  (w <= String.length (zero_pad w s))%nat.
Proof. unfold zero_pad. rewrite length_app, length_zeros. lia. Qed.

Lemma prefix_empty (s : string) : String.prefix "" s = true.
Proof. now destruct s. Qed.

Lemma path_join_inj (a p x y : string) :
  p <> "" -> path_join a (p ++ x) = path_join a (p ++ y) -> x = y.
Proof.
  intros N. unfold path_join, startswith.
  destruct p as [| c p]; [contradiction |]. cbn [append String.prefix].
  rewrite !prefix_empty.
  destruct (ascii_dec "/" c) as [_ | _].
  - intros [= E]. now apply append_cancel_l in E.
  - destruct ((a =? "") || endswith a "/"); intros E;
      apply append_cancel_l in E;
      [| apply (append_cancel_l "/") in E];
      injection E as E; now apply append_cancel_l in E.
Qed.

(** Two chunk numbers with the same output file are the same number. *)
Lemma output_file_inj (output_dir input_file : string) (a b : Z) :
  output_file output_dir input_file a = output_file output_dir input_file b ->
  a = b.
Proof.
  unfold output_file. intros E.
  rewrite <- (append_assoc (stem input_file) "_" (format_03 a ++ ".mp3")) in E.
  rewrite <- (append_assoc (stem input_file) "_" (format_03 b ++ ".mp3")) in E.
  apply path_join_inj in E.
  - apply append_cancel_r in E. now apply format_03_inj.
  - destruct (stem input_file); discriminate.
Qed.

End NamingFacts.

(** ** The audiobook chunker: properties of runs *)

Module AudiobookRuns.

Import Py PyFacts Audiobook PlanFacts RunFacts RunMore Text Naming NamingFacts.
Local Open Scope Q_scope.

Section World.

Variable float : string -> option Q.
Variable ffprobe : string -> completed.
Variable ffmpeg : ffmpeg_cmd -> Z.

(** X7.  When the probe prints nothing but white space, [get_duration]
    returns 0 without calling [float]; it prints the probe's diagnostic
    stream when that is not empty, and nothing otherwise. *)
Theorem blank_probe_output_gives_zero (input_file : string) :
  all_space (stdout (ffprobe input_file)) = true ->
  get_duration float ffprobe input_file
  = (Run_ffprobe input_file
       :: (if (stderr (ffprobe input_file) =? "")%string then []
           else [Print (Probe_error (stderr (ffprobe input_file)))]),
     inr 0).
Proof.
  intros H. unfold get_duration. rewrite bind_emit.
  rewrite (rstrip_all_space _ H). cbn [String.eqb negb].
  now destruct (stderr (ffprobe input_file) =? "")%string.
Qed.

(** X8.  White space after the probe's output changes nothing: the same
    duration is returned, the same lines are printed and the whole run is
    the same. *)
Theorem trailing_space_is_ignored (other : string -> completed)
    (input_file output_dir : string) (chunk_duration : Z) (speed_factor : Q)
    (start_chunk : Z) (max_chunks : option Z)
    (audio_quality sample_rate w : string) :
  all_space w = true ->
  stdout (other input_file) = (stdout (ffprobe input_file) ++ w)%string ->
  stderr (other input_file) = stderr (ffprobe input_file) ->
  get_duration float other input_file = get_duration float ffprobe input_file
  /\ process_audiobook float other ffmpeg input_file output_dir chunk_duration
       speed_factor start_chunk max_chunks audio_quality sample_rate
     = process_audiobook float ffprobe ffmpeg input_file output_dir
         chunk_duration speed_factor start_chunk max_chunks audio_quality
         sample_rate.
Proof.
  intros W O E.
  assert (G : get_duration float other input_file
              = get_duration float ffprobe input_file).
  { unfold get_duration. rewrite O, E, (rstrip_app_space _ _ W). reflexivity. }
  split; [exact G |]. unfold process_audiobook. now rewrite G.
Qed.

Section Process.

Variables (input_file output_dir : string) (chunk_duration : Z)
          (speed_factor : Q) (start_chunk : Z) (max_chunks : option Z)
          (audio_quality sample_rate : string).

Let r := process_audiobook float ffprobe ffmpeg input_file output_dir
           chunk_duration speed_factor start_chunk max_chunks
           audio_quality sample_rate.
Let g := get_duration float ffprobe input_file.
Let cmd_of := build_cmd input_file output_dir speed_factor audio_quality
                sample_rate.


(** X10.  In a run with a known non-zero duration, a non-zero chunk
    length and a speed that passes the check of line 90, rounded as the
    code rounds it, and whose chain is built without an exception, one
    error line is printed for each transform that exits with a non-zero
    status, in order and with the number of its chunk, and for no other. *)
Theorem one_error_line_per_failed_chunk (total_duration : Q) :
  snd g = inr total_duration -> ~ total_duration == 0 ->
  chunk_duration <> 0%Z -> speed_invalid speed_factor = false ->
  chain_exception speed_factor = None ->
  chunk_errors (trace r)
  = map (fun c => Chunk_error (index c))
      (filter (fun c => negb (ffmpeg (cmd_of c) =? 0)%Z)
         (chunk_plan total_duration chunk_duration start_chunk max_chunks)).
Proof.
  intros G N C V X.
  assert (C' : chunk_seconds chunk_duration <> 0%Z)
    by (unfold chunk_seconds; lia).
  unfold r. rewrite process_unfold. fold g. rewrite G.
  destruct (Qeq_bool total_duration 0) eqn:Z;
    [apply Qeq_bool_iff in Z; contradiction |].
  destruct (Z.eqb_spec (chunk_seconds chunk_duration) 0); [contradiction |].
  cbv zeta. unfold trace at 1. cbn [fst].
  change (Mkdir output_dir :: fst g ++ ?a :: ?b :: ?l)
    with ([Mkdir output_dir] ++ fst g ++ [a; b] ++ l).
  rewrite !chunk_errors_app. fold (trace g). unfold g.
  rewrite get_duration_no_chunk_errors.
  change (chunk_errors [Mkdir output_dir]) with (@nil message).
  cbn [List.app].
  match goal with
  | |- chunk_errors [?a; ?b] ++ _ = _ =>
      change (chunk_errors [a; b]) with (@nil message)
  end.
  cbn [List.app].
  pose proof (chunk_loop_errors ffmpeg input_file output_dir chunk_duration
                speed_factor audio_quality sample_rate total_duration
                (total_chunks total_duration chunk_duration start_chunk
                   max_chunks)
                (range (start_chunk - 1)
                   (total_chunks total_duration chunk_duration start_chunk
                      max_chunks)) V X) as E.
  unfold trace in E. rewrite E.
  unfold chunk_plan. rewrite filter_map_swap, map_map. reflexivity.
Qed.

(** X11.  A chunk length of 0 with a known non-zero duration makes the run
    raise [ZeroDivisionError] before anything is transformed. *)
Theorem zero_chunk_length_raises (total_duration : Q) :
  snd g = inr total_duration -> ~ total_duration == 0 ->
  chunk_duration = 0%Z ->
  raises r ZeroDivisionError /\ transforms (trace r) = [].
Proof.
  intros G N C. unfold r, raises. rewrite process_unfold. fold g. rewrite G.
  destruct (Qeq_bool total_duration 0) eqn:Z;
    [apply Qeq_bool_iff in Z; contradiction |].
  subst chunk_duration. cbn [chunk_seconds Z.mul Z.eqb].
  split; [reflexivity |].
  unfold trace. cbn [fst transforms]. rewrite transforms_app.
  fold (trace g). unfold g. now rewrite get_duration_transforms.
Qed.

(** X20.  Once the check of line 90 has passed, an exception raised while
    the chain is built leaves the run at the first planned chunk: the run
    raises it right after the two summary lines, and nothing is
    transformed. *)
Theorem chain_exception_leaves_run (total_duration : Q) (e : exn) :
  snd g = inr total_duration -> ~ total_duration == 0 ->
  chunk_duration <> 0%Z -> speed_invalid speed_factor = false ->
  chain_exception speed_factor = Some e ->
  chunk_plan total_duration chunk_duration start_chunk max_chunks <> [] ->
  raises r e
  /\ trace r
     = Mkdir output_dir
         :: trace g
         ++ [Print (Total_minutes (total_duration / 60));
             Print (Processing_chunks start_chunk
                      (total_chunks total_duration chunk_duration
                         start_chunk max_chunks))]
  /\ transforms (trace r) = [].
Proof.
  intros G N C V X P.
  assert (C' : chunk_seconds chunk_duration <> 0%Z)
    by (unfold chunk_seconds; lia).
  split; [| split].
  3:{ unfold r. now apply (no_transform_when_chain_raises _ _ _ _ _ _ _ _ _ _ _
                             total_duration e). }
  all: unfold r, raises, trace; rewrite process_unfold; fold g; rewrite G;
    destruct (Qeq_bool total_duration 0) eqn:Z;
    [apply Qeq_bool_iff in Z; contradiction |];
    destruct (Z.eqb_spec (chunk_seconds chunk_duration) 0); [contradiction |];
    cbv zeta; rewrite (chunk_loop_raises _ _ _ _ _ _ _ _ _ _ e V X);
    unfold chunk_plan in P;
    destruct (range _ _); [now elim P | reflexivity].
Qed.

(** X12.  The output file of lines 75-78 determines the chunk number, whose
    digits take at least three characters; so, in a run as in X9, no two
    transforms write the same file. *)
Theorem output_files_are_distinct :
  (forall a b : Z,
     output_file output_dir input_file a = output_file output_dir input_file b ->
     a = b)
  /\ (forall number : Z, (3 <= String.length (format_03 number))%nat)
  /\ (forall total_duration,
        snd g = inr total_duration -> ~ total_duration == 0 ->
        chunk_duration <> 0%Z -> speed_invalid speed_factor = false ->
        NoDup (map cmd_output_file (transforms (trace r)))).
Proof.
  repeat apply conj.
  - apply output_file_inj.
  - intros number. unfold format_03. destruct (number <? 0)%Z.
    + cbn [String.length].
      pose proof (length_zero_pad 2 (decimal (Z.to_N (- number)))). lia.
    + apply length_zero_pad.
  - intros T G N C V.
    assert (C' : chunk_seconds chunk_duration <> 0%Z)
      by (unfold chunk_seconds; lia).
    destruct (chain_exception speed_factor) as [e |] eqn:X.
    { unfold r.
      rewrite (no_transform_when_chain_raises _ _ _ _ _ _ _ _ _ _ _ T e G V X).
      constructor. }
    unfold r.
    rewrite (transforms_follow_plan _ _ _ _ _ _ _ _ _ _ _ T G N C' V X).
    unfold chunk_plan. rewrite !map_map.
    apply NoDup_map_on; [| apply range_NoDup].
    intros x y _ _ E. unfold cmd_output_file in E. cbn in E.
    apply output_file_inj in E. lia.
Qed.

End Process.

End World.

Lemma blank_probe_output_gives_zero_witness :
  snd (get_duration decimal_float
         (fun _ => {| stdout := " "; stderr := "moov atom not found" |})
         "book.m4b") = inr 0.
Proof.
  rewrite (blank_probe_output_gives_zero decimal_float
             (fun _ => {| stdout := " "; stderr := "moov atom not found" |})
             "book.m4b" eq_refl).
  reflexivity.
Defined.

Lemma trailing_space_is_ignored_witness :
  get_duration decimal_float (probe_prints "1500.000000") "book.m4b"
  = get_duration decimal_float
      (fun _ => {| stdout := "1500.000000"; stderr := "" |}) "book.m4b".
Proof.
  refine (proj1
    (trailing_space_is_ignored decimal_float
       (fun _ => {| stdout := "1500.000000"; stderr := "" |}) ffmpeg_succeeds
       (probe_prints "1500.000000") "book.m4b" "out" 10 (3 # 2) 1 None
       "192" "44100" (String (ascii_of_nat 10) "") _ _ _)); reflexivity.
Defined.


Lemma one_error_line_per_failed_chunk_witness :
  chunk_errors
    (trace (process_audiobook decimal_float (probe_prints "1500.000000")
              (fun cmd => if (out_number cmd =? 2)%Z then 1%Z else 0%Z)
              "book.m4b" "out" 10 (3602879701896397 # 9007199254740992)
              1 None "192" "44100"))
  = [Chunk_error 2].
Proof.
  rewrite (one_error_line_per_failed_chunk decimal_float
             (probe_prints "1500.000000")
             (fun cmd => if (out_number cmd =? 2)%Z then 1%Z else 0%Z)
             "book.m4b" "out" 10 (3602879701896397 # 9007199254740992)
             1 None "192" "44100" (1500000000 # 1000000)).
  - vm_compute. reflexivity.
  - reflexivity.
  - discriminate.
  - discriminate.
  - vm_compute. reflexivity.
  - vm_compute. reflexivity.
Defined.

Lemma zero_chunk_length_raises_witness :
  raises
    (process_audiobook decimal_float (probe_prints "1500.000000")
       ffmpeg_succeeds "book.m4b" "out" 0 (3 # 2) 1 None "192" "44100")
    ZeroDivisionError.
Proof.
  refine (proj1
    (zero_chunk_length_raises decimal_float (probe_prints "1500.000000")
       ffmpeg_succeeds "book.m4b" "out" 0 (3 # 2) 1 None "192" "44100"
       (1500000000 # 1000000) _ _ _)); (reflexivity || discriminate).
Defined.

(** The smallest positive binary64 value as speed factor: the check
    passes and [math.floor] raises. *)
Lemma chain_exception_leaves_run_witness :
  raises
    (process_audiobook decimal_float (probe_prints "1500.000000")
       ffmpeg_succeeds "book.m4b" "out" 10 (Float64.pow2 (-1074)) 1 None
       "192" "44100")
    OverflowError.
Proof.
  refine (proj1
    (chain_exception_leaves_run decimal_float (probe_prints "1500.000000")
       ffmpeg_succeeds "book.m4b" "out" 10 (Float64.pow2 (-1074)) 1 None
       "192" "44100" (1500000000 # 1000000) OverflowError _ _ _ _ _ _));
    try (vm_compute; reflexivity); discriminate.
Defined.

Lemma output_files_are_distinct_witness :
  NoDup
    (map cmd_output_file
       (transforms
          (trace (process_audiobook decimal_float (probe_prints "1500.000000")
                    ffmpeg_succeeds "book.m4b" "out" 10 (3 # 2) 1 None
                    "192" "44100")))).
Proof.
  refine (proj2 (proj2
    (output_files_are_distinct decimal_float (probe_prints "1500.000000")
       ffmpeg_succeeds "book.m4b" "out" 10 (3 # 2) 1 None "192" "44100"))
    (1500000000 # 1000000) _ _ _ _); (reflexivity || discriminate).
Defined.

End AudiobookRuns.

(** ** More on the source concatenator *)

Module GatherFacts.

Import Gather PathFacts GatherMain.
Local Open Scope string_scope.

Lemma insert_sorted_perm (x : string) (l : list string) :
  Permutation (insert_sorted x l) (x :: l).
Proof.
  induction l as [| y r IH]; cbn; [reflexivity |].
  destruct (String.leb x y); [reflexivity |].
  rewrite IH. apply perm_swap.
Qed.

(** Sorting keeps every path, as often as it occurs. *)
Lemma sorted_perm (l : list string) : Permutation (sorted l) l.
Proof.
  unfold sorted. induction l as [| x l IH]; cbn; [reflexivity |].
  rewrite insert_sorted_perm. now constructor.
Qed.

Lemma endswith_app (a s : string) : endswith (a ++ s) s = true.
Proof.
  unfold endswith. rewrite length_app. apply andb_true_iff. split.
  - apply Nat.leb_le. lia.
  - replace (String.length a + String.length s - String.length s)%nat
      with (String.length a) by lia.
    rewrite drop_app. apply String.eqb_refl.
Qed.

(** A joined path is a parent that is empty or ends with a slash,
    followed by the file name. *)
Lemma join_parent (root file : string) :
  exists parent,
    join root file = parent ++ file
    /\ (parent = "" \/ endswith parent "/" = true).
Proof.
  unfold join. destruct (String.eqb_spec root "") as [-> | N].
  - exists "". split; [reflexivity | now left].
  - cbn [orb]. destruct (endswith root "/") eqn:E.
    + exists root. split; [reflexivity | now right].
    + exists (root ++ "/"). split; [now rewrite append_assoc |].
      right. apply endswith_app.
Qed.

Lemma name_of_join (root file : string) :
  rfind "/" file = None -> file <> "" -> file <> "." ->
  name (join root file) = file.
Proof.
  intros S N D. destruct (join_parent root file) as (parent & -> & P).
  now apply name_of_file.
Qed.

Lemma create_log fs (files : list string) :
  snd (create_combined_file fs files) = flat_map (failure_line fs) files.
Proof.
  induction files as [| f rest IH]; [reflexivity |].
  cbn [create_combined_file snd flat_map]. rewrite IH. f_equal.
  unfold combine_one, failure_line. now destruct (fs f).
Qed.

End GatherFacts.

(** ** The source concatenator: further properties *)

Module GatherExtra.

Import Gather PathFacts GatherMain GatherFacts.
Local Open Scope string_scope.

(** X13.  [collect_files] returns exactly the paths of the walk that the
    classifier accepts, each as often as the walk yields it, in ascending
    order: nothing is lost and nothing is added. *)
Theorem collect_files_sorts_the_accepted_paths
    (guess_type : string -> option string)
    (walk : list (string * list string)) (extensions : list string) :
  Permutation
    (collect_files guess_type walk extensions)
    (filter (fun p => is_text_file guess_type p extensions)
       (flat_map (fun d => map (join (fst d)) (snd d)) walk))
  /\ in_order (collect_files guess_type walk extensions)
  /\ (forall p, In p (collect_files guess_type walk extensions) <->
        is_text_file guess_type p extensions = true
        /\ exists root files file,
             In (root, files) walk /\ In file files /\ p = join root file).
Proof.
  assert (P : Permutation
    (collect_files guess_type walk extensions)
    (filter (fun p => is_text_file guess_type p extensions)
       (flat_map (fun d => map (join (fst d)) (snd d)) walk)))
    by apply sorted_perm.
  split; [exact P | split; [apply GatherSpec.collect_files_in_order |]].
  intros p. split.
  - intros H. apply (Permutation_in _ P) in H. apply filter_In in H.
    destruct H as [H T]. split; [exact T |].
    apply in_flat_map in H. destruct H as ([root files] & W & H).
    apply in_map_iff in H. destruct H as (file & <- & F).
    now exists root, files, file.
  - intros (T & root & files & file & W & F & ->).
    apply (Permutation_in _ (Permutation_sym P)). apply filter_In.
    split; [| exact T]. apply in_flat_map. exists (root, files).
    split; [exact W |]. cbn. now apply in_map.
Qed.

Section Files.

Variable fs : string -> file_state.

(** X14.  When no file of the list fails while it is read, the output is
    one complete block per file that was read, in the order of the list,
    and the printed lines are exactly one error line for each file that
    cannot be opened, in the order of the list, with its path and its
    exception: such a file adds nothing to the output, and no warning is
    printed. *)
Theorem unopenable_files_leave_no_trace (files : list string) :
  (forall f, In f files -> decodable fs f) ->
  fst (create_combined_file fs files) = expected_output fs files
  /\ snd (create_combined_file fs files)
     = flat_map (fun f => match fs f with
                          | Open_error e => [Error_processing f e]
                          | _ => []
                          end) files.
Proof.
  intros H. split.
  - now apply GatherSpec.combined_output_of_decodable_files.
  - induction files as [| f rest IH]; [reflexivity |].
    cbn [create_combined_file snd flat_map].
    rewrite IH by (intros x I; apply H; now right). f_equal.
    destruct (H f (or_introl eq_refl)) as [U R]. unfold combine_one.
    destruct (fs f) as [e | | e | text]; try reflexivity.
    + contradiction.
    + now elim (R e).
Qed.


End Files.

(** X16.  For a plain file name, joining it to any directory changes
    neither the name nor the suffix that [pathlib] sees: the allow-list
    test of a file is the same in every directory. *)
Theorem suffix_ignores_directory (root file : string) :
  rfind "/" file = None -> file <> "" -> file <> "." ->
  name (join root file) = file
  /\ suffix (join root file) = suffix file
  /\ forall extensions,
       mem (lower (suffix (join root file))) extensions
       = mem (lower (suffix file)) extensions.
Proof.
  intros S N D.
  assert (A : name (join root file) = file) by now apply name_of_join.
  assert (B : name file = file)
    by (apply (name_of_file "" file); auto).
  assert (C : suffix (join root file) = suffix file)
    by (unfold suffix; now rewrite A, B).
  repeat apply conj; [exact A | exact C | intros e; now rewrite C].
Qed.

Lemma suffix_ignores_directory_witness :
  suffix (join "src/lib" "Parser.cpp") = suffix "Parser.cpp".
Proof.
  refine (proj1 (proj2 (suffix_ignores_directory "src/lib" "Parser.cpp" _ _ _)));
    (reflexivity || discriminate).
Defined.

(** X17.  The output file of [main] has an allow-listed extension: wherever
    a file of that name lies in the walked tree, whatever the content-type
    guess, it is among the collected files, so a second run takes the
    output of the first as one of its inputs. *)
Theorem own_output_is_collected (guess_type : string -> option string)
    (walk : list (string * list string)) (root : string)
    (files : list string) :
  In (root, files) walk -> In output_file files ->
  is_text_file guess_type (join root output_file) text_extensions = true
  /\ In (join root output_file)
       (collect_files guess_type walk text_extensions).
Proof.
  intros W F.
  assert (T : is_text_file guess_type (join root output_file) text_extensions
              = true).
  { unfold is_text_file.
    assert (S : suffix (join root output_file) = ".txt").
    { unfold suffix. rewrite name_of_join; [reflexivity | reflexivity | |];
        discriminate. }
    rewrite S. reflexivity. }
  split; [exact T |].
  apply (Permutation_in _ (Permutation_sym (sorted_perm _))).
  apply filter_In. split; [| exact T].
  apply in_flat_map. exists (root, files). split; [exact W |].
  cbn. now apply in_map.
Qed.

Lemma own_output_is_collected_witness :
  In "./combined_source_code.txt"
    (collect_files mimetypes_guess_type
       [(".", ["a.py"; "combined_source_code.txt"])] text_extensions).
Proof.
  refine (proj2
    (own_output_is_collected mimetypes_guess_type
       [(".", ["a.py"; "combined_source_code.txt"])] "."
       ["a.py"; "combined_source_code.txt"] _ _)).
  - left. reflexivity.
  - right. left. reflexivity.
Defined.

(** X18.  [main] scans the directory of its first argument, or the current
    directory without one; it prints the directory, the number of files
    found, one line per file that was not read, and the name of the
    output.  Every file found is either read to the end or reported. *)
Theorem main_accounts_for_every_file (guess_type : string -> option string)
    (walk : string -> list (string * list string))
    (fs : string -> file_state) (argv : list string) :
  let files :=
    collect_files guess_type (walk (directory argv)) text_extensions in
  directory argv = nth 1 argv "."
  /\ snd (main guess_type walk fs argv)
     = ([Scanning (directory argv); Found (List.length files)]
          ++ flat_map (failure_line fs) files
          ++ [Created "combined_source_code.txt"])%list
  /\ List.length files
     = (List.length (filter (is_read fs) files)
        + List.length (flat_map (failure_line fs) files))%nat
  /\ fst (main guess_type walk fs argv) = fst (create_combined_file fs files).
Proof.
  intros files. repeat apply conj.
  - destruct argv as [| a [| d r]]; reflexivity.
  - unfold main. cbn [snd]. fold files. now rewrite create_log.
  - clear. induction files as [| f rest IH]; [reflexivity |].
    cbn [filter flat_map List.length]. rewrite List.length_app.
    unfold failure_line at 1.
    destruct (is_read fs f) eqn:R; unfold is_read in R;
      destruct (fs f); try discriminate; cbn [List.length]; lia.
  - reflexivity.
Qed.

Lemma collect_files_sorts_the_accepted_paths_witness :
  In "./b.py"
    (collect_files mimetypes_guess_type [(".", ["b.py"; "a.png"])]
       text_extensions).
Proof.
  apply (proj2 (proj2
    (collect_files_sorts_the_accepted_paths mimetypes_guess_type
       [(".", ["b.py"; "a.png"])] text_extensions))).
  split; [reflexivity |].
  exists ".", ["b.py"; "a.png"], "b.py".
  repeat split; left; reflexivity.
Defined.

Lemma unopenable_files_leave_no_trace_witness :
  create_combined_file
    (fun p => if p =? "gone.txt" then Open_error "No such file"
              else Content "hi")
    ["gone.txt"; "b.txt"]
  = (block "b.txt" "hi", [Error_processing "gone.txt" "No such file"]).
Proof.
  destruct (unopenable_files_leave_no_trace
              (fun p => if p =? "gone.txt" then Open_error "No such file"
                        else Content "hi")
              ["gone.txt"; "b.txt"]) as [E L].
  - intros f [<- | [<- | []]]; split; cbn; intros; discriminate.
  - rewrite (surjective_pairing (create_combined_file _ _)), E, L.
    reflexivity.
Defined.

End GatherExtra.
